(** * Shallow embedding of [win_utils.c] (RHash, Windows utility layer)

    The file models the string conversion helpers, the error translator,
    the path composer, the exclusive file accessor and the directory
    iterator of [src/win_utils.c], and proves the properties the
    specification states about them. *)

From Stdlib Require Import ZArith Lia Bool Ascii String.
From stdpp Require Import base list gmap.

Local Open Scope Z_scope.

(** ** Data representation

    A [wchar_t] is a 16-bit code unit and a [char] a byte, both kept as [Z].
    A C string is the list of its units up to, and without, the terminating
    NUL. *)

Definition wchar := Z.
Definition wstr := list Z.
Definition cstr := list Z.

(** Reading [s[i]] of a NUL-terminated string: the terminator is read at the
    end of the list. *)
Definition char_at (s : list Z) (i : nat) : Z := nth i s 0.

Definition wcslen (s : wstr) : Z := Z.of_nat (length s).

(** [L "text"] is the wide string literal [L"text"], [C "text"] the narrow one. *)
Definition L (s : string) : wstr :=
  map (fun a => Z.of_N (N_of_ascii a)) (list_ascii_of_string s).
Definition C (s : string) : cstr := L s.

(** ** Platform constants (values of the Windows SDK and the MSVC runtime) *)

Module Win.
(* winnls.h *)
Definition CP_ACP : Z := 0.
Definition CP_OEMCP : Z := 1.
Definition CP_UTF8 : Z := 65001.
Definition MB_ERR_INVALID_CHARS : Z := 8.

(* share.h, fcntl.h *)
Definition _SH_DENYWR : Z := 32.
Definition _SH_DENYNO : Z := 64.
Definition _O_RDONLY : Z := 0.
Definition _O_BINARY : Z := 32768.

(* winbase.h *)
Definition INVALID_HANDLE_VALUE : Z := -1.
Definition FILE_ATTRIBUTE_DIRECTORY : Z := 16.

(* winerror.h *)
Definition NO_ERROR : Z := 0.
Definition ERROR_FILE_NOT_FOUND : Z := 2.
Definition ERROR_PATH_NOT_FOUND : Z := 3.
Definition ERROR_TOO_MANY_OPEN_FILES : Z := 4.
Definition ERROR_ACCESS_DENIED : Z := 5.
Definition ERROR_INVALID_HANDLE : Z := 6.
Definition ERROR_NOT_ENOUGH_MEMORY : Z := 8.
Definition ERROR_INVALID_BLOCK : Z := 9.
Definition ERROR_INVALID_ACCESS : Z := 12.
Definition ERROR_INVALID_DATA : Z := 13.
Definition ERROR_INVALID_DRIVE : Z := 15.
Definition ERROR_NO_MORE_FILES : Z := 18.
Definition ERROR_WRITE_PROTECT : Z := 19.
Definition ERROR_SHARING_VIOLATION : Z := 32.
Definition ERROR_LOCK_VIOLATION : Z := 33.
Definition ERROR_SHARING_BUFFER_EXCEEDED : Z := 36.
Definition ERROR_BAD_NETPATH : Z := 53.
Definition ERROR_NETWORK_ACCESS_DENIED : Z := 65.
Definition ERROR_FAIL_I24 : Z := 83.
Definition ERROR_INVALID_PARAMETER : Z := 87.
Definition ERROR_DRIVE_LOCKED : Z := 108.
Definition ERROR_BROKEN_PIPE : Z := 109.
Definition ERROR_DISK_FULL : Z := 112.
Definition ERROR_SEEK_ON_DEVICE : Z := 132.
Definition ERROR_NOT_LOCKED : Z := 158.
Definition ERROR_BAD_PATHNAME : Z := 161.
Definition ERROR_LOCK_FAILED : Z := 167.
Definition ERROR_ALREADY_EXISTS : Z := 183.
Definition ERROR_FILENAME_EXCED_RANGE : Z := 206.
Definition ERROR_NESTING_NOT_ALLOWED : Z := 215.
Definition ERROR_NO_DATA : Z := 232.
Definition ERROR_NO_UNICODE_TRANSLATION : Z := 1113.
Definition ERROR_NOT_ENOUGH_QUOTA : Z := 1816.

(* errno.h *)
Definition ENOENT : Z := 2.
Definition EBADF : Z := 9.
Definition EAGAIN : Z := 11.
Definition ENOMEM : Z := 12.
Definition EACCES : Z := 13.
Definition EEXIST : Z := 17.
Definition EINVAL : Z := 22.
Definition EMFILE : Z := 24.
Definition ENOSPC : Z := 28.
Definition EPIPE : Z := 32.
End Win.
Import Win.

(** the range of error codes for access errors *)
Definition MIN_EACCES_RANGE : Z := ERROR_WRITE_PROTECT.
Definition MAX_EACCES_RANGE : Z := ERROR_SHARING_BUFFER_EXCEEDED.

(** ** The process state the functions read and write *)

(** The record [FindFirstFileW]/[FindNextFileW] fill in ([WIN32_FIND_DATAW]);
    only the two members the code reads are kept. *)
Record FindData := mkFindData {
  cFileName : wstr;
  dwFileAttributes : Z
}.

(** Calls that cross into the operating system or the C runtime, in the
    order they are made.  [CallC2W] marks an entry into [c2w]. *)
Inductive Call :=
| CallC2W (str : cstr) (try_no : Z)
| CallWfsopen (wpath wmode : wstr) (shflag : Z) (result : Z)
| CallWsopen (wpath : wstr) (oflag shflag pmode : Z) (fd : Z)
| CallClose (fd : Z)
| CallFindFirstFileW (wpath : wstr) (hFind : Z)
| CallFindNextFileW (hFind : Z) (ok : bool)
| CallFindClose (hFind : Z).

Record World := mkWorld {
  last_error : Z;                       (* the value of GetLastError() *)
  errno : Z;
  open_fds : gset Z;                    (* descriptors and streams held open *)
  find_tab : gmap Z (list FindData);    (* open find handles, each with the
                                           records it has yet to deliver *)
  calls : list Call                     (* oldest first *)
}.

Definition set_last_error (e : Z) (w : World) : World :=
  mkWorld e (errno w) (open_fds w) (find_tab w) (calls w).
Definition set_errno (e : Z) (w : World) : World :=
  mkWorld (last_error w) e (open_fds w) (find_tab w) (calls w).
Definition set_open_fds (s : gset Z) (w : World) : World :=
  mkWorld (last_error w) (errno w) s (find_tab w) (calls w).
Definition set_find_tab (t : gmap Z (list FindData)) (w : World) : World :=
  mkWorld (last_error w) (errno w) (open_fds w) t (calls w).
Definition log_call (c : Call) (w : World) : World :=
  mkWorld (last_error w) (errno w) (open_fds w) (find_tab w) (calls w ++ [c]).

(** ** Error translator *)

(** [convert_last_error_to_errno]: the [switch] over [GetLastError()], one
    test per group of [case] labels, then the range test. *)
Definition convert_last_error_to_errno (w : World) : Z :=
  let error_code := last_error w in
  if error_code =? NO_ERROR then 0
  else if (error_code =? ERROR_FILE_NOT_FOUND)
       || (error_code =? ERROR_PATH_NOT_FOUND)
       || (error_code =? ERROR_INVALID_DRIVE)
       || (error_code =? ERROR_BAD_NETPATH)
       || (error_code =? ERROR_BAD_PATHNAME)
       || (error_code =? ERROR_FILENAME_EXCED_RANGE) then ENOENT
  else if error_code =? ERROR_TOO_MANY_OPEN_FILES then EMFILE
  else if (error_code =? ERROR_ACCESS_DENIED)
       || (error_code =? ERROR_SHARING_VIOLATION) then EACCES
  else if (error_code =? ERROR_NETWORK_ACCESS_DENIED)
       || (error_code =? ERROR_FAIL_I24)
       || (error_code =? ERROR_SEEK_ON_DEVICE) then EACCES
  else if (error_code =? ERROR_LOCK_VIOLATION)
       || (error_code =? ERROR_DRIVE_LOCKED)
       || (error_code =? ERROR_NOT_LOCKED)
       || (error_code =? ERROR_LOCK_FAILED) then EACCES
  else if error_code =? ERROR_INVALID_HANDLE then EBADF
  else if (error_code =? ERROR_NOT_ENOUGH_MEMORY)
       || (error_code =? ERROR_INVALID_BLOCK)
       || (error_code =? ERROR_NOT_ENOUGH_QUOTA) then ENOMEM
  else if (error_code =? ERROR_INVALID_ACCESS)
       || (error_code =? ERROR_INVALID_DATA)
       || (error_code =? ERROR_INVALID_PARAMETER) then EINVAL
  else if (error_code =? ERROR_BROKEN_PIPE)
       || (error_code =? ERROR_NO_DATA) then EPIPE
  else if error_code =? ERROR_DISK_FULL then ENOSPC
  else if error_code =? ERROR_ALREADY_EXISTS then EEXIST
  else if error_code =? ERROR_NESTING_NOT_ALLOWED then EAGAIN
  (* try to detect error by range *)
  else if (MIN_EACCES_RANGE <=? error_code) && (error_code <=? MAX_EACCES_RANGE)
  then EACCES
  else EINVAL.

(** [set_errno_from_last_file_error] *)
Definition set_errno_from_last_file_error (w : World) : World :=
  set_errno (convert_last_error_to_errno w) w.

(** ** Path composer *)

Section PathComposer.
(** [IS_PATH_SEPARATOR_W] and [SYS_PATH_SEPARATOR] are macros of another
    header of the project; they are kept abstract. *)
Variable IS_PATH_SEPARATOR_W : wchar -> bool.
Variable SYS_PATH_SEPARATOR : wchar.

(** [(size_t)-1] on a 64-bit target *)
Definition size_t_wrap (z : Z) : Z := z mod 2 ^ 64.
Definition SIZE_T_MINUS_1 : Z := size_t_wrap (-1).

(** [while (IS_PATH_SEPARATOR_W( *filename)) filename++;]
    The scan ends at the terminator at the latest. *)
Fixpoint skip_separators (filename : wstr) : wstr :=
  match filename with
  | c :: rest => if IS_PATH_SEPARATOR_W c then skip_separators rest else filename
  | [] => []
  end.

(** [make_pathw].  [dir_path = None] is the null pointer.  [memcpy] of
    [dir_len] units of [dir_path] is [take]; a [dir_len] beyond the length
    of [dir_path] would read past its end in C and is cut off here. *)
Definition make_pathw (dir_path : option wstr) (dir_len : Z) (filename : wstr) : wstr :=
  let '(dir_len, filename) :=
    match dir_path with
    | None => (0, filename)
    | Some dir =>
        (* remove leading path separators from filename *)
        let filename := skip_separators filename in
        (if dir_len =? SIZE_T_MINUS_1 then wcslen dir else dir_len, filename)
    end in
  let res :=
    if 0 <? dir_len then
      let res := take (Z.to_nat dir_len) (default [] dir_path) in
      if negb (char_at res (Z.to_nat (dir_len - 1)) =? SYS_PATH_SEPARATOR)
      then res ++ [SYS_PATH_SEPARATOR]   (* append path separator to the directory *)
      else res
    else [] in
  (* append filename *)
  res ++ filename.
End PathComposer.

(** ** A state monad over [World] *)

Definition M (A : Type) : Type := World -> A * World.

Definition ret {A} (a : A) : M A := fun w => (a, w).
Definition bind {A B} (m : M A) (k : A -> M B) : M B :=
  fun w => let '(a, w') := m w in k a w'.
Definition modify (f : World -> World) : M unit := fun w => (tt, f w).
Definition gets {A} (f : World -> A) : M A := fun w => (f w, w).

Notation "x <- c1 ;; c2" := (bind c1 (fun x => c2))
  (at level 100, c1 at next level, right associativity).
Notation "c1 ;;; c2" := (bind c1 (fun _ => c2))
  (at level 100, right associativity).

(** A handle value no open handle has: one more than the largest in use. *)
Definition fresh_handle (used : gset Z) : Z := 1 + set_fold Z.max 0 used.

(** ** The native calls

    What the operating system answers is not decided by the program: the
    answers are fields of [Platform] below.  An answer depends on the
    arguments of the call only (the file system stands still during one
    operation of this layer). *)

Inductive Outcome :=
| Fails (code : Z)     (* the error code the failing call records *)
| Succeeds.

Inductive FindOutcome :=
| FindFails (code : Z)
| FindYields (first : FindData) (rest : list FindData).

(** [struct win_dirent] *)
Record win_dirent := mkDirent {
  d_name : option cstr;     (* [None] is the null pointer *)
  d_wname : option wstr;    (* a view of [findFileData.cFileName] *)
  d_isdir : Z
}.

(** [struct WIN_DIR_t] *)
Record WIN_DIR := mkDir {
  findFileData : FindData;
  hFind : Z;
  dir : win_dirent;
  state : Z   (* 0 - not started, -1 - ended, >=0 file index *)
}.

Definition set_findFileData (f : FindData) (d : WIN_DIR) : WIN_DIR :=
  mkDir f (hFind d) (dir d) (state d).
Definition set_hFind (h : Z) (d : WIN_DIR) : WIN_DIR :=
  mkDir (findFileData d) h (dir d) (state d).
Definition set_dir (e : win_dirent) (d : WIN_DIR) : WIN_DIR :=
  mkDir (findFileData d) (hFind d) e (state d).
Definition set_state (s : Z) (d : WIN_DIR) : WIN_DIR :=
  mkDir (findFileData d) (hFind d) (dir d) s.
Definition set_d_name (n : option cstr) (d : WIN_DIR) : WIN_DIR :=
  set_dir (mkDirent n (d_wname (dir d)) (d_isdir (dir d))) d.

(** [memset(d, 0, sizeof(WIN_DIR))] *)
Definition zeroed_WIN_DIR : WIN_DIR :=
  mkDir (mkFindData [] 0) 0 (mkDirent None None 0) 0.

(** Everything the program takes from its environment.  [opt_flags] is
    [opt.flags]; the option bits come from [parse_cmdline.h], the default
    encoding sentinel and the size of the iterator from [win_utils.h]; their
    values are kept abstract.  The rest is what the operating system answers:
    the code page tables (the wide text a byte string decodes to, with invalid
    input replaced, and whether all of the input was valid; the bytes a wide
    string encodes to and whether a default character was substituted, or
    [None] when the conversion is refused), the file system (opening a stream,
    opening a descriptor, listing a pattern) and the heap (whether [malloc] of
    a size succeeds). *)
Record Platform := mkPlatform {
  opt_flags : Z;
  OPT_UTF8 : Z;
  OPT_OEM : Z;
  WIN_DEFAULT_ENCODING : Z;
  sizeof_WIN_DIR : Z;
  nt_decode : Z -> cstr -> wstr * bool;
  nt_encode : Z -> wstr -> option (cstr * bool);
  nt_fsopen : wstr -> wstr -> Z -> Outcome;
  nt_sopen : wstr -> Z -> Z -> Z -> Outcome;
  nt_find : wstr -> FindOutcome;
  nt_malloc : Z -> bool
}.

Section Native.
Variable env : Platform.

Definition flag_set (mask : Z) : bool := negb (Z.land (opt_flags env) mask =? 0).

Definition GetLastError : M Z := gets last_error.

(** [malloc]: on failure the run-time library sets [errno = ENOMEM]. *)
Definition malloc (size : Z) : M bool :=
  if nt_malloc env size then ret true
  else modify (set_errno ENOMEM) ;;; ret false.

(** [MultiByteToWideChar(codepage, flags, str, -1, ...)]: [None] is the
    return value 0.  With [MB_ERR_INVALID_CHARS] invalid input fails the
    call, without it invalid input is replaced. *)
Definition MultiByteToWideChar (codepage flags : Z) (str : cstr) : M (option wstr) :=
  let '(text, valid) := nt_decode env codepage str in
  if negb (Z.land flags MB_ERR_INVALID_CHARS =? 0) && negb valid
  then modify (set_last_error ERROR_NO_UNICODE_TRANSLATION) ;;; ret None
  else ret (Some text).

(** [WideCharToMultiByte(codepage, 0, wstr, -1, ..., 0, lpUsedDefaultChar)]:
    for [CP_UTF8] a non-null [lpUsedDefaultChar] fails the call. *)
Definition WideCharToMultiByte (codepage : Z) (wtext : wstr)
    (lpUsedDefaultChar : bool) : M (option (cstr * bool)) :=
  if (codepage =? CP_UTF8) && lpUsedDefaultChar
  then modify (set_last_error ERROR_INVALID_PARAMETER) ;;; ret None
  else match nt_encode env codepage wtext with
       | None => modify (set_last_error ERROR_INVALID_PARAMETER) ;;; ret None
       | Some r => ret (Some r)
       end.

(** [_wfsopen]: a stream pointer, or 0 with [errno] set. *)
Definition _wfsopen (wpath wmode : wstr) (shflag : Z) : M Z :=
  match nt_fsopen env wpath wmode shflag with
  | Fails e =>
      modify (set_errno e) ;;;
      modify (log_call (CallWfsopen wpath wmode shflag 0)) ;;; ret 0
  | Succeeds =>
      fds <- gets open_fds ;;
      let fp := fresh_handle fds in
      modify (set_open_fds ({[fp]} ∪ fds)) ;;;
      modify (log_call (CallWfsopen wpath wmode shflag fp)) ;;; ret fp
  end.

(** [_wsopen]: a descriptor, or -1 with [errno] set. *)
Definition _wsopen (wpath : wstr) (oflag shflag pmode : Z) : M Z :=
  match nt_sopen env wpath oflag shflag pmode with
  | Fails e =>
      modify (set_errno e) ;;;
      modify (log_call (CallWsopen wpath oflag shflag pmode (-1))) ;;; ret (-1)
  | Succeeds =>
      fds <- gets open_fds ;;
      let fd := fresh_handle fds in
      modify (set_open_fds ({[fd]} ∪ fds)) ;;;
      modify (log_call (CallWsopen wpath oflag shflag pmode fd)) ;;; ret fd
  end.

Definition _close (fd : Z) : M unit :=
  fds <- gets open_fds ;;
  modify (set_open_fds (fds ∖ {[fd]})) ;;;
  modify (log_call (CallClose fd)).

(** [FindFirstFileW]: the handle, and the first record on success. *)
Definition FindFirstFileW (wpath : wstr) : M (Z * option FindData) :=
  match nt_find env wpath with
  | FindFails e =>
      modify (set_last_error e) ;;;
      modify (log_call (CallFindFirstFileW wpath INVALID_HANDLE_VALUE)) ;;;
      ret (INVALID_HANDLE_VALUE, None)
  | FindYields first rest =>
      tab <- gets find_tab ;;
      let h := fresh_handle (dom tab) in
      modify (set_find_tab (<[h := rest]> tab)) ;;;
      modify (log_call (CallFindFirstFileW wpath h)) ;;;
      ret (h, Some first)
  end.

(** [FindNextFileW]: the next record, or [None] for FALSE. *)
Definition FindNextFileW (h : Z) : M (option FindData) :=
  tab <- gets find_tab ;;
  match tab !! h with
  | Some (r :: rest) =>
      modify (set_find_tab (<[h := rest]> tab)) ;;;
      modify (log_call (CallFindNextFileW h true)) ;;; ret (Some r)
  | Some [] =>
      modify (set_last_error ERROR_NO_MORE_FILES) ;;;
      modify (log_call (CallFindNextFileW h false)) ;;; ret None
  | None =>
      modify (set_last_error ERROR_INVALID_HANDLE) ;;;
      modify (log_call (CallFindNextFileW h false)) ;;; ret None
  end.

Definition FindClose (h : Z) : M unit :=
  tab <- gets find_tab ;;
  modify (set_find_tab (delete h tab)) ;;;
  modify (log_call (CallFindClose h)).

(** ** Codepage converter *)

(** [cstr_to_wchar]: the size query validates strictly, the conversion
    proper then fills the buffer; [rsh_malloc] does not return on failure. *)
Definition cstr_to_wchar (str : cstr) (codepage : Z) : M (option wstr) :=
  size <- MultiByteToWideChar codepage MB_ERR_INVALID_CHARS str ;;
  match size with
  | None => ret None   (* conversion failed *)
  | Some _ =>
      buf <- MultiByteToWideChar codepage 0 str ;;
      ret (Some (default [] buf))
  end.

(** [c2w] *)
Definition c2w (str : cstr) (try_no : Z) : M (option wstr) :=
  modify (log_call (CallC2W str try_no)) ;;;
  let is_utf := try_no =? (if flag_set (OPT_UTF8 env) then 0 else 1) in
  let codepage :=
    if is_utf then CP_UTF8 else if flag_set (OPT_OEM env) then CP_OEMCP else CP_ACP in
  cstr_to_wchar str codepage.

(** [utf8_to_wchar] *)
Definition utf8_to_wchar (utf8_str : cstr) : M (option wstr) :=
  cstr_to_wchar utf8_str CP_UTF8.

(** [wchar_to_cstr].  [failed] tells whether the flag pointer is non-null;
    the second component of the result is the value stored through it. *)
Definition wchar_to_cstr (wtext : wstr) (codepage : Z) (failed : bool)
    : M (option cstr * option Z) :=
  let codepage :=
    if codepage =? -1 then
      (if flag_set (OPT_UTF8 env) then CP_UTF8
       else if flag_set (OPT_OEM env) then CP_OEMCP else CP_ACP)
    else codepage in
  (* note: lpUsedDefaultChar must be NULL for CP_UTF8 *)
  let lpUsedDefaultChar := failed && negb (codepage =? CP_UTF8) in
  size <- WideCharToMultiByte codepage wtext false ;;
  match size with
  | None => ret (None, if failed then Some 1 else None)   (* conversion failed *)
  | Some _ =>
      r <- WideCharToMultiByte codepage wtext lpUsedDefaultChar ;;
      let buf := default [] (fst <$> r) in
      let bUsedDefChar := default false (snd <$> r) in
      ret (Some buf,
           if failed
           then Some (if lpUsedDefaultChar && bUsedDefChar then 1 else 0)
           else None)
  end.

(** [w2c] *)
Definition w2c (wtext : wstr) : M (option cstr) :=
  r <- wchar_to_cstr wtext (-1) false ;; ret (fst r).

(** ** Exclusive file accessor *)

(** The body of [for (i = 0; i < 2; i++)] in [win_fopen_ex], over the
    values of [i] still to come. *)
Fixpoint win_fopen_ex_loop (tries : list Z) (path : cstr) (wmode : wstr)
    (exclusive : Z) (fd : Z) : M Z :=
  match tries with
  | [] => ret fd
  | i :: tries =>
      wpath <- c2w path i ;;
      match wpath with
      | None => win_fopen_ex_loop tries path wmode exclusive fd   (* continue *)
      | Some wpath =>
          fd <- _wfsopen wpath wmode
                  (if negb (exclusive =? 0) then _SH_DENYWR else _SH_DENYNO) ;;
          e <- gets errno ;;
          if negb (fd =? 0) || negb (e =? ENOENT) then ret fd   (* break *)
          else win_fopen_ex_loop tries path wmode exclusive fd
      end
  end.

(** [win_fopen_ex].  [None] is the failed [assert(wmode != NULL)], which
    ends the process. *)
Definition win_fopen_ex (path mode : cstr) (exclusive : Z) (w : World)
    : option (Z * World) :=
  let '(wmode, w) := utf8_to_wchar mode w in
  match wmode with
  | None => None
  | Some wmode =>
      (* try two code pages *)
      Some (win_fopen_ex_loop [0; 1] path wmode exclusive 0 w)
  end.

(** The body of [for (i = 0; i < 2 && res == 0; i++)]. *)
Fixpoint can_open_exclusive_loop (tries : list Z) (path : cstr) (res : Z) : M Z :=
  match tries with
  | [] => ret res
  | i :: tries =>
      if negb (res =? 0) then ret res
      else
        wpath <- c2w path i ;;
        match wpath with
        | None => can_open_exclusive_loop tries path res   (* continue *)
        | Some wpath =>
            fd <- _wsopen wpath (Z.lor _O_RDONLY _O_BINARY) _SH_DENYWR 0 ;;
            res <- (if 0 <=? fd then _close fd ;;; ret 1 else ret res) ;;
            can_open_exclusive_loop tries path res
        end
  end.

(** [can_open_exclusive] *)
Definition can_open_exclusive (path : cstr) : M Z :=
  can_open_exclusive_loop [0; 1] path 0.

(** ** Directory iterator *)

Definition strlen (s : cstr) : Z := Z.of_nat (length s).

(** Storing what [FindFirstFileW] returned into the iterator. *)
Definition store_find (r : Z * option FindData) (d : WIN_DIR) : WIN_DIR :=
  set_hFind (fst r) (set_findFileData (default (findFileData d) (snd r)) d).

(** [win_opendir]: [None] is the null pointer. *)
Definition win_opendir (dir_path : cstr) : M (option WIN_DIR) :=
  (* append '\*' to the dir_path *)
  let len := strlen dir_path in
  allocated <- malloc (len + 3) ;;
  if negb allocated then ret None   (* failed, malloc also set errno = ENOMEM *)
  else
    let path := dir_path ++ C "\*" in
    allocated <- malloc (sizeof_WIN_DIR env) ;;
    if negb allocated then ret None
    else
      let d := zeroed_WIN_DIR in
      wpath <- c2w path 0 ;;
      r <- match wpath with
           | Some wpath => FindFirstFileW wpath
           | None => ret (INVALID_HANDLE_VALUE, None)
           end ;;
      let d := store_find r d in
      e <- GetLastError ;;
      d <- (if (hFind d =? INVALID_HANDLE_VALUE) && negb (e =? ERROR_ACCESS_DENIED)
            then
              wpath <- c2w path 1 ;;   (* try to use secondary codepage *)
              match wpath with
              | Some wpath => r <- FindFirstFileW wpath ;; ret (store_find r d)
              | None => ret d
              end
            else ret d) ;;
      e <- GetLastError ;;
      if (hFind d =? INVALID_HANDLE_VALUE) && (e =? ERROR_ACCESS_DENIED)
      then modify (set_errno EACCES) ;;; ret None
      else
        modify set_errno_from_last_file_error ;;;
        let d := set_state (if hFind d =? INVALID_HANDLE_VALUE then -1 else 0) d in
        ret (Some (set_d_name None d)).

(** [win_closedir] *)
Definition win_closedir (d : WIN_DIR) : M unit :=
  if negb (hFind d =? INVALID_HANDLE_VALUE) then FindClose (hFind d) else ret tt.

(** The test that skips the names [.] and [..] *)
Definition is_dot_name (name : wstr) : bool :=
  (char_at name 0 =? 46)
  && ((char_at name 1 =? 0)
      || ((char_at name 1 =? 46) && (char_at name 2 =? 0))).

(** The [for (;;)] loop of [win_readdir].  [fuel] bounds the number of
    iterations; [None] means the bound was too small ([readdir_fuel_enough]
    shows that the bound [win_readdir] uses never is). *)
Fixpoint win_readdir_loop (fuel : nat) (d : WIN_DIR) (w : World)
    : option (option win_dirent * WIN_DIR * World) :=
  match fuel with
  | O => None
  | S fuel =>
      let '(next, w) :=
        if 0 <? state d then FindNextFileW (hFind d) w
        else (Some (findFileData d), w) in
      match next with
      | None =>
          (* the directory listing has ended *)
          Some (None, set_state (-1) d, w)
      | Some record =>
          let d := set_findFileData record d in
          let d := set_state (state d + 1) d in
          if is_dot_name (cFileName (findFileData d))
          then win_readdir_loop fuel d w   (* skips '.' and '..' names *)
          else
            let '((filename, failed), w) :=
              wchar_to_cstr (cFileName (findFileData d)) (WIN_DEFAULT_ENCODING env) true w in
            let d := set_d_name filename d in
            match filename, failed with
            | Some _, Some 0 =>
                let entry :=
                  mkDirent filename (Some (cFileName (findFileData d)))
                    (if negb (Z.land (dwFileAttributes (findFileData d))
                                     FILE_ATTRIBUTE_DIRECTORY =? 0)
                     then 1 else 0) in
                let d := set_dir entry d in
                Some (Some entry, d, w)
            | _, _ =>
                (* quietly skip an invalid filename and repeat the search *)
                win_readdir_loop fuel (set_d_name None d) w
            end
      end
  end.

(** The number of iterations the loop can make at most: one for each step
    of [state] up to 1, one for each record the handle still holds, and the
    one that meets the end of the listing. *)
Definition readdir_fuel (d : WIN_DIR) (w : World) : nat :=
  (Z.to_nat (1 - state d) + length (default [] (find_tab w !! hFind d)) + 1)%nat.

(** [win_readdir]: [None] is the null pointer (no entries left). *)
Definition win_readdir (d : WIN_DIR) (w : World) : option win_dirent * WIN_DIR * World :=
  if state d =? -1 then (None, d, w)
  else
    let d := set_d_name None d in
    match win_readdir_loop (readdir_fuel d w) d w with
    | Some r => r
    | None => (None, d, w)
    end.

End Native.

(** ** Vocabulary of the specification *)

(** The encoding mode the option bits select, and its primary code page. *)
Inductive EncodingMode := Universal | SystemLegacy | OemLegacy.

Definition encoding_mode (env : Platform) : EncodingMode :=
  if flag_set env (OPT_UTF8 env) then Universal
  else if flag_set env (OPT_OEM env) then OemLegacy
  else SystemLegacy.

Definition primary_codepage (m : EncodingMode) : Z :=
  match m with
  | Universal => CP_UTF8
  | SystemLegacy => CP_ACP
  | OemLegacy => CP_OEMCP
  end.

(** A narrow string is representable without loss in the active encoding
    when the primary code page decodes all of it and encodes the decoded
    text back to the same bytes, a legacy code page without substituting a
    default character. *)
Definition representable (env : Platform) (s : cstr) : Prop :=
  let cp := primary_codepage (encoding_mode env) in
  exists (wide : wstr) (used_default : bool),
    nt_decode env cp s = (wide, true) /\
    nt_encode env cp wide = Some (s, used_default) /\
    (encoding_mode env <> Universal -> used_default = false).

(** The portable error taxonomy and the [errno] value that carries each. *)
Inductive PortableErrorCode :=
| NotFound | AccessDenied | TooManyOpenFiles | InvalidHandle | OutOfMemory
| InvalidArgument | BrokenPipe | DiskFull | AlreadyExists
| TemporarilyUnavailable | Unknown.

Definition portable_errno (c : PortableErrorCode) : Z :=
  match c with
  | NotFound => ENOENT
  | AccessDenied => EACCES
  | TooManyOpenFiles => EMFILE
  | InvalidHandle => EBADF
  | OutOfMemory => ENOMEM
  | InvalidArgument => EINVAL
  | BrokenPipe => EPIPE
  | DiskFull => ENOSPC
  | AlreadyExists => EEXIST
  | TemporarilyUnavailable => EAGAIN
  | Unknown => EINVAL   (* Unknown is reported as InvalidArgument *)
  end.

(** The families of native codes the translation table names. *)
Definition not_found_family : list Z :=
  [ERROR_FILE_NOT_FOUND; ERROR_PATH_NOT_FOUND; ERROR_INVALID_DRIVE;
   ERROR_BAD_NETPATH; ERROR_BAD_PATHNAME; ERROR_FILENAME_EXCED_RANGE].
Definition access_denied_family : list Z :=
  [ERROR_ACCESS_DENIED; ERROR_SHARING_VIOLATION; ERROR_NETWORK_ACCESS_DENIED;
   ERROR_FAIL_I24; ERROR_SEEK_ON_DEVICE; ERROR_LOCK_VIOLATION;
   ERROR_DRIVE_LOCKED; ERROR_NOT_LOCKED; ERROR_LOCK_FAILED].
Definition out_of_memory_family : list Z :=
  [ERROR_NOT_ENOUGH_MEMORY; ERROR_INVALID_BLOCK; ERROR_NOT_ENOUGH_QUOTA].
Definition invalid_parameter_family : list Z :=
  [ERROR_INVALID_ACCESS; ERROR_INVALID_DATA; ERROR_INVALID_PARAMETER].
Definition broken_pipe_family : list Z := [ERROR_BROKEN_PIPE; ERROR_NO_DATA].

Definition member (code : Z) (family : list Z) : bool :=
  existsb (Z.eqb code) family.

(** The translation as the specification words it: the table, then the
    device and media access range, then everything else. *)
Definition translate_as_specified (code : Z) : PortableErrorCode :=
  if member code not_found_family then NotFound
  else if code =? ERROR_TOO_MANY_OPEN_FILES then TooManyOpenFiles
  else if member code access_denied_family then AccessDenied
  else if code =? ERROR_INVALID_HANDLE then InvalidHandle
  else if member code out_of_memory_family then OutOfMemory
  else if member code invalid_parameter_family then InvalidArgument
  else if member code broken_pipe_family then BrokenPipe
  else if code =? ERROR_DISK_FULL then DiskFull
  else if code =? ERROR_ALREADY_EXISTS then AlreadyExists
  else if code =? ERROR_NESTING_NOT_ALLOWED then TemporarilyUnavailable
  else if (MIN_EACCES_RANGE <=? code) && (code <=? MAX_EACCES_RANGE) then AccessDenied
  else Unknown.

(** The calls an operation added to the log of a world. *)
Definition new_calls (before after : World) : list Call :=
  drop (length (calls before)) (calls after).

(** The wide form [c2w] returns for an attempt (it does not depend on the
    world it runs in, see [c2w_result_any]). *)
Definition c2w_result (env : Platform) (str : cstr) (try_no : Z) : option wstr :=
  fst (c2w env str try_no (mkWorld 0 0 ∅ ∅ [])).

(** The sharing mode [win_fopen_ex] opens with. *)
Definition fopen_shflag (exclusive : Z) : Z :=
  if negb (exclusive =? 0) then _SH_DENYWR else _SH_DENYNO.

(** The result of the call of [win_readdir] that comes after [n] calls
    whose results are set aside. *)
Fixpoint win_readdir_after (env : Platform) (n : nat) (d : WIN_DIR) (w : World)
    : option win_dirent * WIN_DIR * World :=
  match n with
  | O => win_readdir env d w
  | S n => let '(_, d', w') := win_readdir env d w in win_readdir_after env n d' w'
  end.

(** The pattern [win_opendir] lists: the directory path with [\*] appended. *)
Definition listing_pattern (dir_path : cstr) : cstr := dir_path ++ C "\*".

(** A directory that holds nothing: its listing is [.] and [..]. *)
Definition lists_empty_directory (env : Platform) (dir_path : cstr) : Prop :=
  exists wpath attr1 attr2,
    c2w_result env (listing_pattern dir_path) 0 = Some wpath /\
    nt_find env wpath =
      FindYields (mkFindData (L ".") attr1) [mkFindData (L "..") attr2].

(** The open flags of the probe of [can_open_exclusive]. *)
Definition probe_oflag : Z := Z.lor _O_RDONLY _O_BINARY.

(** An attempt of the probe that converts the path and opens it. *)
Definition probe_opens (env : Platform) (path : cstr) (try_no : Z) : Prop :=
  exists wpath,
    c2w_result env path try_no = Some wpath /\
    nt_sopen env wpath probe_oflag _SH_DENYWR 0 = Succeeds.

(** The code page [c2w] uses for an attempt. *)
Definition attempt_codepage (env : Platform) (try_no : Z) : Z :=
  if try_no =? (if flag_set env (OPT_UTF8 env) then 0 else 1) then CP_UTF8
  else if flag_set env (OPT_OEM env) then CP_OEMCP else CP_ACP.

(** An attempt of [win_opendir] that fails for a reason other than denied
    access: the pattern does not convert, or the listing fails with another
    code. *)
Definition attempt_fails_otherwise (env : Platform) (path : cstr) (try_no : Z) : Prop :=
  c2w_result env path try_no = None \/
  exists wpath code,
    c2w_result env path try_no = Some wpath /\
    nt_find env wpath = FindFails code /\ code <> ERROR_ACCESS_DENIED.

(** ** A small platform to evaluate the functions on

    One code page table for every code page: ASCII, other input invalid
    (decoded as U+FFFD), other output substituted by [?].  The file system
    holds the file [f.txt], the directory [d] with one file, the empty
    directory [e] and the directory [locked] that denies listing. *)
Definition ascii_decode (_ : Z) (s : cstr) : wstr * bool :=
  (map (fun c => if c <? 128 then c else 65533) s, forallb (fun c => c <? 128) s).
Definition ascii_encode (_ : Z) (s : wstr) : option (cstr * bool) :=
  Some (map (fun c => if c <? 128 then c else 63) s,
        negb (forallb (fun c => c <? 128) s)).

Definition toy_open (wpath : wstr) : Outcome :=
  if bool_decide (wpath = L "f.txt") then Succeeds else Fails ENOENT.

Definition toy_find (wpath : wstr) : FindOutcome :=
  if bool_decide (wpath = L "d\*") then
    FindYields (mkFindData (L ".") 16)
      [mkFindData (L "..") 16; mkFindData (L "a.txt") 32]
  else if bool_decide (wpath = L "e\*") then
    FindYields (mkFindData (L ".") 16) [mkFindData (L "..") 16]
  else if bool_decide (wpath = L "locked\*") then FindFails ERROR_ACCESS_DENIED
  else FindFails ERROR_PATH_NOT_FOUND.

Definition toy (flags : Z) : Platform :=
  mkPlatform flags 1 2 (-1) 600 ascii_decode ascii_encode
    (fun wpath _ _ => toy_open wpath) (fun wpath _ _ _ => toy_open wpath)
    toy_find (fun _ => true).

Definition world0 : World := mkWorld 0 0 ∅ ∅ [].

Definition is_slash (c : wchar) : bool := c =? 47.

(** An iterator on the directory [d] that has not been read yet: it holds
    the record [.], the handle 1 has [..] and [a.txt] to come. *)
Definition fresh_iterator : WIN_DIR :=
  mkDir (mkFindData (L ".") 16) 1 (mkDirent None None 0) 0.
Definition fresh_iterator_world : World :=
  mkWorld 0 0 ∅ {[1 := [mkFindData (L "..") 16; mkFindData (L "a.txt") 32]]} [].

(** The same iterator after [a.txt] has been returned: nothing is left. *)
Definition read_iterator : WIN_DIR :=
  mkDir (mkFindData (L "a.txt") 32) 1
    (mkDirent (Some (C "a.txt")) (Some (L "a.txt")) 0) 3.
Definition read_iterator_world : World :=
  mkWorld 0 0 ∅ {[1 := []]} [].

(** A directory path that no code page of the small platform decodes. *)
Definition undecodable_path : cstr := [200].

(** ** Further functions of [win_utils.c] *)

(** [win_to_utf8].  [OPT_ANSI] is an option bit of [parse_cmdline.h], kept
    abstract like the others; the outer [None] is the failed assertion that
    one of the three encoding bits is set. *)
Definition win_to_utf8 (env : Platform) (OPT_ANSI : Z) (str : cstr) (w : World)
    : option (option cstr * World) :=
  if Z.land (opt_flags env)
       (Z.lor (Z.lor (OPT_UTF8 env) (OPT_OEM env)) OPT_ANSI) =? 0
  then None
  else if flag_set env (OPT_UTF8 env) then Some (Some str, w)   (* rsh_strdup *)
  else
    let '(buf, w) := c2w env str 0 w in
    match buf with
    | None => Some (None, w)
    | Some buf =>
        let '(res, w) := wchar_to_cstr env buf CP_UTF8 false w in
        Some (fst res, w)
    end.

(** [win_wopendir].  [rsh_malloc] returns memory that is not cleared:
    [allocated] is what the fresh iterator holds before it is filled in. *)
Definition win_wopendir (env : Platform) (IS_PATH_SEPARATOR_W : wchar -> bool)
    (SYS_PATH_SEPARATOR : wchar) (allocated : WIN_DIR) (dir_path : option wstr)
    : M (option WIN_DIR) :=
  (* append '\*' to the dir_path *)
  let wpath :=
    make_pathw IS_PATH_SEPARATOR_W SYS_PATH_SEPARATOR dir_path SIZE_T_MINUS_1 (L "*") in
  let d := allocated in
  r <- FindFirstFileW env wpath ;;
  let d := store_find r d in
  e <- GetLastError ;;
  if (hFind d =? INVALID_HANDLE_VALUE) && (e =? ERROR_ACCESS_DENIED)
  then modify (set_errno EACCES) ;;; ret None
  else
    (* note: we suppose if INVALID_HANDLE_VALUE was returned, then the file
       listing is empty *)
    let d := set_state (if hFind d =? INVALID_HANDLE_VALUE then -1 else 0) d in
    ret (Some (set_d_name None d)).

(** *** Processor affinity *)

(** The scheduling state of the process [set_benchmark_cpu_affinity] works
    on; masks are [DWORD_PTR] values (64 bits). *)
Record Process := mkProcess {
  priority_class : Z;
  thread_priority : Z;
  affinity_mask : Z
}.

Definition HIGH_PRIORITY_CLASS : Z := 128.
Definition THREAD_PRIORITY_HIGHEST : Z := 2.

(** [~1] as a [DWORD_PTR] *)
Definition not_first_processor : Z := Z.lnot 1 mod 2 ^ 64.

(** [set_benchmark_cpu_affinity].  [dwSysMask] is the mask of the processors
    of the system, [query_succeeds] what [GetProcessAffinityMask] returns;
    the mask of the process it reports is the one the process has. *)
Definition set_benchmark_cpu_affinity (dwSysMask : Z) (query_succeeds : bool)
    (p : Process) : Process :=
  let p := mkProcess HIGH_PRIORITY_CLASS (thread_priority p) (affinity_mask p) in
  let p := mkProcess (priority_class p) THREAD_PRIORITY_HIGHEST (affinity_mask p) in
  if query_succeeds then
    let dwProcessMask := affinity_mask p in
    (* remove the first processor *)
    let dwDesired := Z.land dwSysMask (Z.land dwProcessMask not_first_processor) in
    let dwDesired :=
      if negb (dwDesired =? 0) then dwDesired
      else Z.land dwSysMask not_first_processor in
    if negb (dwDesired =? 0)
    then mkProcess (priority_class p) (thread_priority p) dwDesired
    else p
  else p.

(** *** Console *)

(** What the console functions read from the host: the ANSI and OEM code
    pages, which code pages are installed, which descriptors are terminals,
    whether the handle of the error stream is valid.  [OPT_ANSI] and
    [OPT_PERCENTS] are option bits of [parse_cmdline.h]. *)
Record Host := mkHost {
  OPT_ANSI : Z;
  OPT_PERCENTS : Z;
  GetACP : Z;
  GetOEMCP : Z;
  IsValidCodePage : Z -> bool;
  isatty : Z -> bool;
  stderr_handle_valid : bool
}.

(** The console and the fields of [rhash_data] the two functions use.
    [cursor] is the [CONSOLE_CURSOR_INFO] of the error stream ([dwSize],
    [bVisible]), [None] when that stream is no console, so that reading and
    setting the cursor fail. *)
Record Console := mkConsole {
  output_cp : Z;
  cursor : option (Z * Z);
  locale_ctype : string;
  rsh_exit_is_rhash_exit : bool;
  saved_console_codepage : Z;
  saved_cursor_size : Z
}.

(** [SetConsoleOutputCP]: takes effect for an installed code page. *)
Definition SetConsoleOutputCP (host : Host) (cp : Z) (c : Console) : Console :=
  if IsValidCodePage host cp
  then mkConsole cp (cursor c) (locale_ctype c) (rsh_exit_is_rhash_exit c)
         (saved_console_codepage c) (saved_cursor_size c)
  else c.

(** [SetConsoleCursorInfo] on the error stream *)
Definition SetConsoleCursorInfo (info : Z * Z) (c : Console) : Console :=
  match cursor c with
  | Some _ =>
      mkConsole (output_cp c) (Some info) (locale_ctype c)
        (rsh_exit_is_rhash_exit c) (saved_console_codepage c) (saved_cursor_size c)
  | None => c
  end.

Definition set_saved_console_codepage (v : Z) (c : Console) : Console :=
  mkConsole (output_cp c) (cursor c) (locale_ctype c) (rsh_exit_is_rhash_exit c)
    v (saved_cursor_size c).
Definition set_saved_cursor_size (v : Z) (c : Console) : Console :=
  mkConsole (output_cp c) (cursor c) (locale_ctype c) (rsh_exit_is_rhash_exit c)
    (saved_console_codepage c) v.
Definition setlocale_ctype (l : string) (c : Console) : Console :=
  mkConsole (output_cp c) (cursor c) l (rsh_exit_is_rhash_exit c)
    (saved_console_codepage c) (saved_cursor_size c).
Definition hook_rsh_exit (c : Console) : Console :=
  mkConsole (output_cp c) (cursor c) (locale_ctype c) true
    (saved_console_codepage c) (saved_cursor_size c).

(** [setup_console] *)
Definition setup_console (env : Platform) (host : Host) (c : Console) : Console :=
  let utf8 := flag_set env (OPT_UTF8 env) in
  let ansi := flag_set env (OPT_ANSI host) in
  let cp := if utf8 then CP_UTF8 else if ansi then GetACP host else GetOEMCP host in
  let c := set_saved_console_codepage (-1) c in
  let c :=
    if (0 <? cp) && IsValidCodePage host cp && (isatty host 1 || isatty host 2)
    then
      let c := set_saved_console_codepage (output_cp c) c in
      let c := SetConsoleOutputCP host cp c in
      let c := setlocale_ctype
                 (if utf8 then "C" else if ansi then ".ACP" else ".OCP")%string c in
      hook_rsh_exit c
    else c in
  if negb (Z.land (opt_flags env) (OPT_PERCENTS host) =? 0) && isatty host 2
  then
    if stderr_handle_valid host then
      match cursor c with
      | Some (dwSize, bVisible) =>
          (* store current cursor size and visibility flag *)
          let c := set_saved_cursor_size
                     (if negb (bVisible =? 0) then dwSize else 0) c in
          (* now hide cursor *)
          SetConsoleCursorInfo (dwSize, 0) c
      | None => c
      end
    else c
  else c.

(** [restore_console] *)
Definition restore_console (host : Host) (c : Console) : Console :=
  let c :=
    if 0 <? saved_console_codepage c
    then SetConsoleOutputCP host (saved_console_codepage c) c
    else c in
  if stderr_handle_valid host && negb (saved_cursor_size c =? 0)
  then
    (* restore cursor size and visibility *)
    SetConsoleCursorInfo (saved_cursor_size c, 1) c
  else c.

(** ** Further vocabulary *)

(** The text a code page decodes a string to when all of it is valid. *)
Definition strict_decode (env : Platform) (cp : Z) (s : cstr) : option wstr :=
  if snd (nt_decode env cp s) then Some (fst (nt_decode env cp s)) else None.

(** The legacy code page of the options, and the code page of attempt 1. *)
Definition legacy_codepage (env : Platform) : Z :=
  if flag_set env (OPT_OEM env) then CP_OEMCP else CP_ACP.
Definition secondary_codepage (env : Platform) : Z :=
  if flag_set env (OPT_UTF8 env) then legacy_codepage env else CP_UTF8.

(** The code page [wchar_to_cstr] converts with. *)
Definition resolved_codepage (env : Platform) (codepage : Z) : Z :=
  if codepage =? -1 then primary_codepage (encoding_mode env) else codepage.




(** An attempt of [win_fopen_ex] that converts the path and opens it, and
    one after which the loop goes on. *)
Definition fopen_opens (env : Platform) (path : cstr) (wmode : wstr)
    (exclusive : Z) (try_no : Z) : Prop :=
  exists wpath,
    c2w_result env path try_no = Some wpath /\
    nt_fsopen env wpath wmode (fopen_shflag exclusive) = Succeeds.
Definition fopen_goes_on (env : Platform) (path : cstr) (wmode : wstr)
    (exclusive : Z) (try_no : Z) : Prop :=
  c2w_result env path try_no = None \/
  exists wpath,
    c2w_result env path try_no = Some wpath /\
    nt_fsopen env wpath wmode (fopen_shflag exclusive) = Fails ENOENT.

(** The native opens of streams in a list of calls. *)
Definition is_stream_open (c : Call) : bool :=
  match c with CallWfsopen _ _ _ _ => true | _ => false end.
Definition stream_opens (l : list Call) : list Call :=
  List.filter is_stream_open l.

(** A small host and console to evaluate the console functions on. *)
Definition small_host : Host :=
  mkHost 4 8 1252 437 (fun cp => bool_decide (cp ∈ [437; 1252; 65001])) (fun _ => true) true.
Definition dos_console : Console :=
  mkConsole 437 (Some (25, 1)) "C" false 0 0.

(** The small platform with a heap that is exhausted. *)
Definition toy_no_memory : Platform :=
  mkPlatform 1 1 2 (-1) 600 ascii_decode ascii_encode
    (fun wpath _ _ => toy_open wpath) (fun wpath _ _ _ => toy_open wpath)
    toy_find (fun _ => false).

(** A platform whose code pages differ: UTF-8 takes ASCII only here, every
    other code page takes each byte as the character of the same number.
    The directory [233] (one byte, not ASCII) lists one file, the directory
    [234] denies listing. *)
Definition latin_decode (cp : Z) (s : cstr) : wstr * bool :=
  if cp =? CP_UTF8 then ascii_decode cp s else (s, true).
Definition latin_find (wpath : wstr) : FindOutcome :=
  if bool_decide (wpath = [233; 92; 42]) then
    FindYields (mkFindData (L "b.txt") 32) []
  else if bool_decide (wpath = [234; 92; 42]) then FindFails ERROR_ACCESS_DENIED
  else FindFails ERROR_PATH_NOT_FOUND.
Definition latin_platform : Platform :=
  mkPlatform 1 1 2 (-1) 600 latin_decode ascii_encode
    (fun wpath _ _ => toy_open wpath) (fun wpath _ _ _ => toy_open wpath)
    latin_find (fun _ => true).

(** An iterator that failed to open: ended, with the invalid handle. *)
Definition ended_iterator : WIN_DIR :=
  mkDir (mkFindData [] 0) INVALID_HANDLE_VALUE (mkDirent None None 0) (-1).

(** The separator macros as a Windows build has them.  The functions of
    [win_utils.c] are compiled under [_WIN32] only, and the code names the
    separator itself: [win_opendir] appends ["\*"] to the directory, and
    [win_wopendir] calls [make_pathw] to "append '\*' to the dir_path".  The
    system separator is the backslash; both slashes are accepted as
    separators. *)
Definition win32_SYS_PATH_SEPARATOR : wchar := 92.
Definition win32_IS_PATH_SEPARATOR_W (c : wchar) : bool := (c =? 92) || (c =? 47).




(** * Properties *)

(** ** Error translator *)

(** The translator reads nothing but the last recorded native error. *)
Lemma convert_last_error_depends_on_last_error (w1 w2 : World) :
  last_error w1 = last_error w2 ->
  convert_last_error_to_errno w1 = convert_last_error_to_errno w2.
Proof. unfold convert_last_error_to_errno. intros ->. reflexivity. Qed.

Lemma last_error_set_errno_from_last_file_error (w : World) :
  last_error (set_errno_from_last_file_error w) = last_error w.
Proof. reflexivity. Qed.

Ltac unfold_codes :=
  unfold NO_ERROR, ERROR_FILE_NOT_FOUND, ERROR_PATH_NOT_FOUND,
    ERROR_TOO_MANY_OPEN_FILES, ERROR_ACCESS_DENIED, ERROR_INVALID_HANDLE,
    ERROR_NOT_ENOUGH_MEMORY, ERROR_INVALID_BLOCK, ERROR_INVALID_ACCESS,
    ERROR_INVALID_DATA, ERROR_INVALID_DRIVE, ERROR_SHARING_VIOLATION,
    ERROR_LOCK_VIOLATION, ERROR_BAD_NETPATH, ERROR_NETWORK_ACCESS_DENIED,
    ERROR_FAIL_I24, ERROR_INVALID_PARAMETER, ERROR_DRIVE_LOCKED,
    ERROR_BROKEN_PIPE, ERROR_DISK_FULL, ERROR_SEEK_ON_DEVICE, ERROR_NOT_LOCKED,
    ERROR_BAD_PATHNAME, ERROR_LOCK_FAILED, ERROR_ALREADY_EXISTS,
    ERROR_FILENAME_EXCED_RANGE, ERROR_NESTING_NOT_ALLOWED, ERROR_NO_DATA,
    ERROR_NOT_ENOUGH_QUOTA, MIN_EACCES_RANGE, MAX_EACCES_RANGE,
    ERROR_WRITE_PROTECT, ERROR_SHARING_BUFFER_EXCEEDED in *.

(** Case analysis on one equality test of the error code after the other. *)
Ltac split_code e :=
  repeat match goal with
         | |- context [e =? ?c] =>
             destruct (Z.eqb_spec e c); [subst e; vm_compute; reflexivity |]
         end.

(** C4, as amended: the translator is a function of the last recorded native
    error alone, it gives the same code again when called again, and it maps
    per the table, then the access range, then everything else to
    InvalidArgument, except that the no-error value 0 stays 0. *)
Theorem convert_last_error_to_errno_table (w : World) :
  convert_last_error_to_errno w =
    (if last_error w =? NO_ERROR then 0
     else portable_errno (translate_as_specified (last_error w)))
  /\ convert_last_error_to_errno (set_errno_from_last_file_error w) =
       convert_last_error_to_errno w
  /\ errno (set_errno_from_last_file_error w) = convert_last_error_to_errno w.
Proof.
  split; [| split; reflexivity].
  unfold convert_last_error_to_errno, translate_as_specified, member,
    not_found_family, access_denied_family, out_of_memory_family,
    invalid_parameter_family, broken_pipe_family.
  generalize (last_error w); intros e.
  cbn [existsb]. unfold_codes.
  split_code e.
  cbn [orb]. destruct ((19 <=? e) && (e <=? 36)); reflexivity.
Qed.

(** C4, as stated, fails at the no-error value: it is in no family and not in
    the access range, yet it is not translated to InvalidArgument. *)
Lemma convert_last_error_to_errno_no_error :
  convert_last_error_to_errno (mkWorld NO_ERROR 0 ∅ ∅ []) <>
    portable_errno (translate_as_specified NO_ERROR)
  /\ translate_as_specified NO_ERROR = Unknown
  /\ convert_last_error_to_errno (mkWorld NO_ERROR 0 ∅ ∅ []) = 0.
Proof. vm_compute. repeat split; discriminate. Qed.

(** ** Path composer *)

Section PathComposerFacts.
Variable IS_PATH_SEPARATOR_W : wchar -> bool.
Variable SYS_PATH_SEPARATOR : wchar.

(** What [skip_separators] removes are separators, and what it leaves does
    not start with one. *)
Lemma skip_separators_drop (filename : wstr) :
  exists k : nat,
    skip_separators IS_PATH_SEPARATOR_W filename = drop k filename /\
    forallb IS_PATH_SEPARATOR_W (take k filename) = true /\
    match skip_separators IS_PATH_SEPARATOR_W filename with
    | c :: _ => IS_PATH_SEPARATOR_W c = false
    | [] => True
    end.
Proof.
  induction filename as [| c rest IH].
  - exists 0%nat. repeat split.
  - simpl. destruct (IS_PATH_SEPARATOR_W c) eqn:Hc.
    + destruct IH as (k & Hd & Hf & Hh). exists (S k). simpl.
      rewrite Hc. repeat split; assumption.
    + exists 0%nat. repeat split. assumption.
Qed.

Lemma skip_separators_fixed (filename : wstr) :
  match filename with c :: _ => IS_PATH_SEPARATOR_W c = false | [] => True end ->
  skip_separators IS_PATH_SEPARATOR_W filename = filename.
Proof. destruct filename as [| c rest]; simpl; [reflexivity | intros ->; reflexivity]. Qed.

(** With a directory of computed length, the directory is copied, gets one
    separator unless it ends in one, and the stripped filename follows. *)
Lemma make_pathw_dir_auto (dir filename : wstr) :
  dir <> [] ->
  make_pathw IS_PATH_SEPARATOR_W SYS_PATH_SEPARATOR (Some dir) SIZE_T_MINUS_1 filename =
    (if bool_decide (last dir = Some SYS_PATH_SEPARATOR)
     then dir else dir ++ [SYS_PATH_SEPARATOR])
    ++ skip_separators IS_PATH_SEPARATOR_W filename.
Proof.
  intros Hne. unfold make_pathw. rewrite Z.eqb_refl. unfold wcslen.
  destruct (Z.ltb_spec 0 (Z.of_nat (length dir))) as [_ | Hle];
    [| destruct dir; [congruence | simpl in Hle; lia]].
  rewrite Nat2Z.id. simpl default. rewrite firstn_all.
  replace (Z.to_nat (Z.of_nat (length dir) - 1)) with (pred (length dir)) by lia.
  unfold char_at.
  assert (Hlast : last dir = Some (nth (pred (length dir)) dir 0)).
  { induction dir as [| a [| b t] IH]; [congruence | reflexivity |].
    change (last (a :: b :: t)) with (last (b :: t)).
    rewrite IH by congruence. reflexivity. }
  rewrite Hlast.
  destruct (Z.eqb_spec (nth (pred (length dir)) dir 0) SYS_PATH_SEPARATOR) as [-> | Hn].
  - rewrite bool_decide_eq_true_2 by reflexivity. reflexivity.
  - rewrite bool_decide_eq_false_2 by congruence. reflexivity.
Qed.

(** C6, as amended: without a directory [make_pathw] returns the filename as
    it is; leading separators are kept, they are stripped only when a
    directory is given (the result then ends with the stripped filename). *)
Theorem make_pathw_no_dir (dir_len : Z) (filename : wstr) :
  make_pathw IS_PATH_SEPARATOR_W SYS_PATH_SEPARATOR None dir_len filename = filename
  /\ forall dir : wstr,
       exists prefix : wstr,
         make_pathw IS_PATH_SEPARATOR_W SYS_PATH_SEPARATOR (Some dir) dir_len filename =
           prefix ++ skip_separators IS_PATH_SEPARATOR_W filename.
Proof.
  split; [reflexivity |].
  intros dir. unfold make_pathw. eexists. reflexivity.
Qed.

End PathComposerFacts.

(** C6, as stated, fails on a filename that starts with a separator: with no
    directory the separator stays. *)
Lemma make_pathw_no_dir_keeps_separators :
  make_pathw is_slash 47 None 0 (L "/c") <> skip_separators is_slash (L "/c")
  /\ make_pathw is_slash 47 None 0 (L "/c") = L "/c"
  /\ skip_separators is_slash (L "/c") = L "c".
Proof. vm_compute. repeat split; discriminate. Qed.

(** C5, as stated, fails on the code as it is built: this is Windows code,
    the separator it inserts is the backslash, and a directory that ends in
    [/] gets a backslash all the same. *)
Lemma make_pathw_examples_win32 :
  make_pathw win32_IS_PATH_SEPARATOR_W win32_SYS_PATH_SEPARATOR
    (Some (L "/a/b")) SIZE_T_MINUS_1 (L "/c") = L "/a/b\c"
  /\ make_pathw win32_IS_PATH_SEPARATOR_W win32_SYS_PATH_SEPARATOR
       (Some (L "/a/b/")) SIZE_T_MINUS_1 (L "c") = L "/a/b/\c"
  /\ make_pathw win32_IS_PATH_SEPARATOR_W win32_SYS_PATH_SEPARATOR
       (Some (L "/a/b")) SIZE_T_MINUS_1 (L "/c") <> L "/a/b/c"
  /\ make_pathw win32_IS_PATH_SEPARATOR_W win32_SYS_PATH_SEPARATOR
       (Some (L "/a/b/")) SIZE_T_MINUS_1 (L "c") <> L "/a/b/c".
Proof. vm_compute. repeat split; discriminate. Qed.

(** Whatever is accepted as a separator, with the backslash as the system
    separator neither example gives [/a/b/c]. *)
Lemma make_pathw_examples_backslash (IS_PATH_SEPARATOR_W : wchar -> bool) :
  make_pathw IS_PATH_SEPARATOR_W 92 (Some (L "/a/b")) SIZE_T_MINUS_1 (L "/c")
    <> L "/a/b/c"
  /\ make_pathw IS_PATH_SEPARATOR_W 92 (Some (L "/a/b/")) SIZE_T_MINUS_1 (L "c")
       <> L "/a/b/c".
Proof.
  split; rewrite make_pathw_dir_auto by discriminate.
  - change (L "/c") with (47 :: 99 :: []). simpl skip_separators.
    destruct (IS_PATH_SEPARATOR_W 47); [destruct (IS_PATH_SEPARATOR_W 99) |];
      vm_compute; discriminate.
  - change (L "c") with (99 :: []). simpl skip_separators.
    destruct (IS_PATH_SEPARATOR_W 99); vm_compute; discriminate.
Qed.

(** C5, as amended: with a directory whose length is computed, [make_pathw]
    strips every leading separator from the filename and, unless the
    directory is empty, puts the system separator between the two, except
    after a directory that already ends in the system separator (another
    accepted separator at its end does not count).  Where [/] is the system
    separator both examples give [/a/b/c]; with the backslash they give
    [/a/b\c] and [/a/b/\c]. *)
Theorem make_pathw_examples (IS_PATH_SEPARATOR_W : wchar -> bool)
    (SYS_PATH_SEPARATOR : wchar) :
  (forall dir filename : wstr,
     exists k : nat,
       forallb IS_PATH_SEPARATOR_W (take k filename) = true
       /\ match drop k filename with
          | c :: _ => IS_PATH_SEPARATOR_W c = false
          | [] => True
          end
       /\ make_pathw IS_PATH_SEPARATOR_W SYS_PATH_SEPARATOR (Some dir)
            SIZE_T_MINUS_1 filename =
            match dir with
            | [] => []
            | _ :: _ =>
                dir ++ (if bool_decide (last dir = Some SYS_PATH_SEPARATOR)
                        then [] else [SYS_PATH_SEPARATOR])
            end ++ drop k filename)
  /\ (IS_PATH_SEPARATOR_W 47 = true -> IS_PATH_SEPARATOR_W 99 = false ->
      (SYS_PATH_SEPARATOR = 47 ->
       make_pathw IS_PATH_SEPARATOR_W SYS_PATH_SEPARATOR
         (Some (L "/a/b")) SIZE_T_MINUS_1 (L "/c") = L "/a/b/c"
       /\ make_pathw IS_PATH_SEPARATOR_W SYS_PATH_SEPARATOR
            (Some (L "/a/b/")) SIZE_T_MINUS_1 (L "c") = L "/a/b/c")
      /\ (SYS_PATH_SEPARATOR = 92 ->
          make_pathw IS_PATH_SEPARATOR_W SYS_PATH_SEPARATOR
            (Some (L "/a/b")) SIZE_T_MINUS_1 (L "/c") = L "/a/b\c"
          /\ make_pathw IS_PATH_SEPARATOR_W SYS_PATH_SEPARATOR
               (Some (L "/a/b/")) SIZE_T_MINUS_1 (L "c") = L "/a/b/\c")).
Proof.
  split.
  - intros dir filename.
    destruct (skip_separators_drop IS_PATH_SEPARATOR_W filename)
      as (k & Hdrop & Hseps & Hhead).
    exists k. rewrite <- Hdrop. split; [exact Hseps |]. split; [exact Hhead |].
    destruct dir as [| c dir].
    + unfold make_pathw. rewrite Z.eqb_refl. reflexivity.
    + rewrite make_pathw_dir_auto by discriminate.
      destruct (bool_decide (last (c :: dir) = Some SYS_PATH_SEPARATOR));
        [rewrite app_nil_r |]; reflexivity.
  - intros Hsep Hc.
    split; intros ->; split; rewrite make_pathw_dir_auto by discriminate.
    all: change (L "/c") with (47 :: 99 :: []); change (L "c") with (99 :: []).
    all: simpl skip_separators; rewrite ?Hsep, Hc; reflexivity.
Qed.


(** ** Handles and the call log *)

Lemma foldr_max_nonneg (l : list Z) : 0 <= foldr Z.max 0 l.
Proof. induction l as [| a l IH]; simpl; lia. Qed.

Lemma foldr_max_upper (l : list Z) (x : Z) : x ∈ l -> x <= foldr Z.max 0 l.
Proof.
  induction l as [| a l IH]; intros Hin.
  - inversion Hin.
  - apply elem_of_cons in Hin as [-> | Hin]; simpl; [lia |].
    specialize (IH Hin). lia.
Qed.

Lemma fresh_handle_pos (used : gset Z) : 0 < fresh_handle used.
Proof.
  unfold fresh_handle, set_fold. simpl.
  pose proof (foldr_max_nonneg (elements used)). lia.
Qed.

Lemma fresh_handle_fresh (used : gset Z) : fresh_handle used ∉ used.
Proof.
  intros Hin. apply elem_of_elements in Hin.
  apply foldr_max_upper in Hin.
  unfold fresh_handle, set_fold in Hin. simpl in Hin. lia.
Qed.

Lemma new_calls_app (w w' : World) (l : list Call) :
  calls w' = calls w ++ l -> new_calls w w' = l.
Proof. unfold new_calls. intros ->. apply drop_app_length. Qed.

(** Brings the log of a world built by the setters into the form
    [calls w ++ l] and reads off the new calls. *)
Ltac read_calls :=
  match goal with
  | |- context [new_calls ?w ?w'] =>
      let l := fresh "l" in
      let H := fresh "Hcalls" in
      evar (l : list Call);
      assert (H : new_calls w w' = l);
      [ apply new_calls_app; simpl; rewrite <- ?app_assoc; simpl;
        subst l; reflexivity
      | subst l; rewrite !H; clear H ]
  end.

Section Properties.
Variable env : Platform.

(** ** Codepage converter *)

Lemma cstr_to_wchar_eq (str : cstr) (codepage : Z) (w : World) :
  cstr_to_wchar env str codepage w =
    if snd (nt_decode env codepage str)
    then (Some (fst (nt_decode env codepage str)), w)
    else (None, set_last_error ERROR_NO_UNICODE_TRANSLATION w).
Proof.
  unfold cstr_to_wchar, MultiByteToWideChar, bind, ret, modify.
  destruct (nt_decode env codepage str) as [text [|]]; reflexivity.
Qed.

Lemma c2w_result_eq (str : cstr) (try_no : Z) :
  c2w_result env str try_no =
    if snd (nt_decode env (attempt_codepage env try_no) str)
    then Some (fst (nt_decode env (attempt_codepage env try_no) str))
    else None.
Proof.
  unfold c2w_result, c2w, bind, modify, attempt_codepage.
  rewrite cstr_to_wchar_eq.
  destruct (snd (nt_decode env _ str)); reflexivity.
Qed.

(** [c2w] logs its call, returns the same wide string in every world, and
    on failure records the error of the conversion. *)
Lemma c2w_eq (str : cstr) (try_no : Z) (w : World) :
  c2w env str try_no w =
    match c2w_result env str try_no with
    | Some wpath => (Some wpath, log_call (CallC2W str try_no) w)
    | None => (None, set_last_error ERROR_NO_UNICODE_TRANSLATION
                       (log_call (CallC2W str try_no) w))
    end.
Proof.
  rewrite c2w_result_eq.
  unfold c2w, bind, modify, attempt_codepage.
  rewrite cstr_to_wchar_eq.
  destruct (snd (nt_decode env _ str)); reflexivity.
Qed.

Lemma c2w_result_any (str : cstr) (try_no : Z) (w : World) :
  fst (c2w env str try_no w) = c2w_result env str try_no.
Proof. rewrite c2w_eq. destruct (c2w_result env str try_no); reflexivity. Qed.

(** Attempt 0 converts with the primary code page of the encoding mode. *)
Lemma attempt_codepage_0 :
  attempt_codepage env 0 = primary_codepage (encoding_mode env).
Proof.
  unfold attempt_codepage, encoding_mode.
  destruct (flag_set env (OPT_UTF8 env)); simpl; [reflexivity |].
  destruct (flag_set env (OPT_OEM env)); reflexivity.
Qed.

(** The two attempts never use the same code page. *)
Lemma attempt_codepage_differ : attempt_codepage env 0 <> attempt_codepage env 1.
Proof.
  unfold attempt_codepage.
  destruct (flag_set env (OPT_UTF8 env)), (flag_set env (OPT_OEM env));
    simpl; discriminate.
Qed.

(** [wchar_to_cstr] touches nothing but the last error. *)
Lemma wchar_to_cstr_world (wtext : wstr) (codepage : Z) (failed : bool) (w : World) :
  let w' := snd (wchar_to_cstr env wtext codepage failed w) in
  errno w' = errno w /\ open_fds w' = open_fds w /\
  find_tab w' = find_tab w /\ calls w' = calls w.
Proof.
  unfold wchar_to_cstr, WideCharToMultiByte, bind, ret, modify. simpl.
  repeat match goal with
         | |- context [if ?b then _ else _] => destruct b; simpl
         | |- context [match ?o with Some _ => _ | None => _ end] =>
             destruct o; simpl
         end; repeat split.
Qed.

(** C1: a narrow string that is representable without loss in the active
    encoding converts to wide form with attempt 0, and converting the result
    back with the default code page gives the string again, with the
    substitution flag cleared. *)
Theorem c2w_wchar_to_cstr_roundtrip (s : cstr) (w : World) :
  representable env s ->
  exists (wide : wstr) (w1 w2 : World),
    c2w env s 0 w = (Some wide, w1) /\
    wchar_to_cstr env wide (-1) true w1 = ((Some s, Some 0), w2).
Proof.
  intros (wide & used & Hdec & Henc & Hused).
  exists wide. rewrite c2w_eq, c2w_result_eq, attempt_codepage_0, Hdec. simpl.
  do 2 eexists. split; [reflexivity |].
  revert Hdec Henc Hused.
  unfold wchar_to_cstr, WideCharToMultiByte, encoding_mode, bind, ret, modify.
  destruct (flag_set env (OPT_UTF8 env)); simpl.
  - intros _ -> _. reflexivity.
  - destruct (flag_set env (OPT_OEM env)); simpl; intros _ -> Hused;
      rewrite Hused by discriminate; reflexivity.
Qed.

(** ** Exclusive file accessor *)

(** One iteration of the loop of [win_fopen_ex]. *)
Lemma win_fopen_ex_loop_step (i : Z) (tries : list Z) (path : cstr) (wmode : wstr)
    (exclusive fd : Z) (w : World) :
  win_fopen_ex_loop env (i :: tries) path wmode exclusive fd w =
    match c2w_result env path i with
    | None =>
        win_fopen_ex_loop env tries path wmode exclusive fd
          (set_last_error ERROR_NO_UNICODE_TRANSLATION (log_call (CallC2W path i) w))
    | Some wpath =>
        let w1 := log_call (CallC2W path i) w in
        match nt_fsopen env wpath wmode (fopen_shflag exclusive) with
        | Succeeds =>
            let fp := fresh_handle (open_fds w) in
            (fp, log_call (CallWfsopen wpath wmode (fopen_shflag exclusive) fp)
                   (set_open_fds ({[fp]} ∪ open_fds w) w1))
        | Fails e =>
            let w2 := log_call (CallWfsopen wpath wmode (fopen_shflag exclusive) 0)
                        (set_errno e w1) in
            if e =? ENOENT
            then win_fopen_ex_loop env tries path wmode exclusive 0 w2
            else (0, w2)
        end
    end.
Proof.
  cbn [win_fopen_ex_loop]. unfold bind at 1. rewrite c2w_eq.
  destruct (c2w_result env path i) as [wpath |]; [| reflexivity].
  unfold _wfsopen, fopen_shflag.
  destruct (nt_fsopen env wpath wmode _) as [e |].
  - unfold bind, modify, gets, ret. cbn [errno set_errno log_call].
    destruct (e =? ENOENT); reflexivity.
  - unfold bind, modify, gets, ret. cbn [open_fds log_call set_open_fds].
    pose proof (fresh_handle_pos (open_fds w)) as Hpos.
    destruct (Z.eqb_spec (fresh_handle (open_fds w)) 0) as [Hz | _]; [lia |].
    reflexivity.
Qed.

(** A mode that is not valid UTF-8 trips the assertion. *)
Lemma win_fopen_ex_bad_mode (path mode : cstr) (exclusive : Z) (w : World) :
  snd (nt_decode env CP_UTF8 mode) = false ->
  win_fopen_ex env path mode exclusive w = None.
Proof.
  intros Hmode. unfold win_fopen_ex, utf8_to_wchar.
  rewrite cstr_to_wchar_eq, Hmode. reflexivity.
Qed.

(** Splits the goal along the outcome of a conversion or a native open. *)
Ltac split_outcome :=
  match goal with
  | |- context [match c2w_result ?e ?s ?i with _ => _ end] =>
      let H := fresh "Hconv" in destruct (c2w_result e s i) eqn:H
  | |- context [match nt_fsopen ?e ?a ?b ?c with _ => _ end] =>
      let H := fresh "Hopen" in destruct (nt_fsopen e a b c) as [? |] eqn:H
  | |- context [match nt_sopen ?e ?a ?b ?c ?d with _ => _ end] =>
      let H := fresh "Hopen" in destruct (nt_sopen e a b c d) as [? |] eqn:H
  | |- context [match nt_find ?e ?a with _ => _ end] =>
      let H := fresh "Hfind" in destruct (nt_find e a) as [? | ? ?] eqn:H
  | |- context [if ?x =? ?c then _ else _] =>
      destruct (Z.eqb_spec x c); [try subst x |]
  end.

(** Membership of a call in an explicit list of calls. *)
Ltac in_calls :=
  repeat match goal with
         | H : _ ∈ _ :: _ |- _ => apply elem_of_cons in H as [H | H]
         | H : _ ∈ [] |- _ => inversion H
         | H : CallC2W _ _ = _ |- _ => inversion H; clear H
         | H : CallWsopen _ _ _ _ _ = _ |- _ => inversion H; clear H
         | H : CallFindFirstFileW _ _ = _ |- _ => inversion H; clear H
         end.

(** A call that does occur in an explicit list of calls. *)
Ltac found_call :=
  repeat first [apply list_elem_of_here | apply list_elem_of_further].


Lemma open_close_fds (fd : Z) (fds : gset Z) :
  fd ∉ fds -> ({[fd]} ∪ fds) ∖ {[fd]} = fds.
Proof.
  intros Hfresh. apply set_eq. intros x.
  rewrite elem_of_difference, elem_of_union, elem_of_singleton.
  split; [intros [[? | ?] ?]; [contradiction | assumption] |].
  intros Hx. split; [right; assumption | intros ->; contradiction].
Qed.

(** One iteration of the loop of [can_open_exclusive]. *)
Lemma can_open_exclusive_loop_step (i : Z) (tries : list Z) (path : cstr) (w : World) :
  can_open_exclusive_loop env (i :: tries) path 0 w =
    match c2w_result env path i with
    | None =>
        can_open_exclusive_loop env tries path 0
          (set_last_error ERROR_NO_UNICODE_TRANSLATION (log_call (CallC2W path i) w))
    | Some wpath =>
        let w1 := log_call (CallC2W path i) w in
        match nt_sopen env wpath probe_oflag _SH_DENYWR 0 with
        | Succeeds =>
            let fd := fresh_handle (open_fds w) in
            can_open_exclusive_loop env tries path 1
              (log_call (CallClose fd)
                 (log_call (CallWsopen wpath probe_oflag _SH_DENYWR 0 fd) w1))
        | Fails e =>
            can_open_exclusive_loop env tries path 0
              (log_call (CallWsopen wpath probe_oflag _SH_DENYWR 0 (-1))
                 (set_errno e w1))
        end
    end.
Proof.
  cbn [can_open_exclusive_loop Z.eqb negb]. unfold bind at 1. rewrite c2w_eq.
  destruct (c2w_result env path i) as [wpath |]; [| reflexivity].
  unfold _wsopen. fold probe_oflag.
  destruct (nt_sopen env wpath probe_oflag _SH_DENYWR 0) as [e |].
  - reflexivity.
  - unfold _close, bind, modify, gets, ret.
    cbn [open_fds log_call set_open_fds].
    pose proof (fresh_handle_pos (open_fds w)) as Hpos.
    destruct (Z.leb_spec 0 (fresh_handle (open_fds w))) as [_ | Hneg]; [| lia].
    cbn [open_fds log_call set_open_fds].
    rewrite open_close_fds by apply fresh_handle_fresh.
    destruct w; reflexivity.
Qed.

(** Once the probe has succeeded the loop is left. *)
Lemma can_open_exclusive_loop_done (tries : list Z) (path : cstr) (w : World) :
  can_open_exclusive_loop env tries path 1 w = (1, w).
Proof. destruct tries; reflexivity. Qed.

(** C9: [can_open_exclusive] returns 1 exactly when one of the two attempts
    converts the path and opens it read-only with writers denied; the
    descriptor of the successful open is closed at once, these two calls are
    the last the probe makes, no descriptor stays open, and after a success
    of attempt 0 there is no attempt 1. *)
Theorem can_open_exclusive_probe (path : cstr) (w : World) :
  exists (res : Z) (w' : World),
    can_open_exclusive env path w = (res, w') /\
    (res = 1 \/ res = 0) /\
    (res = 1 <-> probe_opens env path 0 \/ probe_opens env path 1) /\
    open_fds w' = open_fds w /\
    (res = 1 ->
       exists (before : list Call) (wpath : wstr) (fd : Z),
         0 <= fd /\ (fd ∉ open_fds w) /\
         new_calls w w' =
           before ++ [CallWsopen wpath probe_oflag _SH_DENYWR 0 fd; CallClose fd] /\
         forall wp fd', CallWsopen wp probe_oflag _SH_DENYWR 0 fd' ∈ before -> fd' = -1) /\
    (res = 0 ->
       forall wp fd', CallWsopen wp probe_oflag _SH_DENYWR 0 fd' ∈ new_calls w w' ->
                      fd' = -1) /\
    (probe_opens env path 0 -> CallC2W path 1 ∉ new_calls w w').
Proof.
  unfold can_open_exclusive, probe_opens.
  pose proof (fresh_handle_pos (open_fds w)) as Hpos.
  pose proof (fresh_handle_fresh (open_fds w)) as Hfresh.
  repeat first [rewrite can_open_exclusive_loop_step; cbv zeta
               | rewrite can_open_exclusive_loop_done
               | split_outcome];
    cbn [can_open_exclusive_loop]; unfold ret;
    (do 2 eexists; split; [reflexivity |]); read_calls;
    (split; [auto |]); (split; [| split; [reflexivity |]]).
  (* the result against the two attempts *)
  all: try (split;
    [ intros Hres;
      first [ discriminate Hres
            | left; eexists; split; [reflexivity | assumption]
            | right; eexists; split; [reflexivity | assumption] ]
    | intros [(? & Hc & Ho) | (? & Hc & Ho)];
      first [ reflexivity | discriminate Hc | injection Hc as <-; congruence ] ]).
  (* the calls made *)
  all: split; [| split].
  (* a success is the last thing that happens *)
  all: try (intros Hres;
    first [ discriminate Hres
          | match goal with
            | |- exists _ _ _, _ /\ _ /\ ?l = _ /\ _ =>
                exists (take (length l - 2)%nat l)
            end;
            do 2 eexists;
            (split; [| split; [| split; [reflexivity |]]]);
            [ lia | exact Hfresh
            | intros wp fd' Hin; cbn in Hin; in_calls; reflexivity ] ]).
  (* without success every open failed *)
  all: try (intros Hres;
    first [ discriminate Hres
          | intros wp fd' Hin; in_calls; reflexivity ]).
  (* no attempt 1 after a success of attempt 0 *)
  all: intros (? & Hc & Ho) Hin;
    first [ discriminate Hc
          | injection Hc as <-; first [congruence | in_calls] ].
Qed.

(** ** Directory iterator *)



(** [FindNextFileW] shortens the list behind the handle it is given by the
    record it returns. *)
Lemma FindNextFileW_some (h : Z) (w w' : World) (r : FindData) :
  FindNextFileW h w = (Some r, w') ->
  exists rest, find_tab w !! h = Some (r :: rest) /\ find_tab w' !! h = Some rest.
Proof.
  unfold FindNextFileW, bind, gets, modify, ret.
  destruct (find_tab w !! h) as [[| r0 rest] |] eqn:Hh; intros [= <- <-].
  exists rest. split; [reflexivity |]. simpl. apply lookup_insert_eq.
Qed.

(** What the loop of [win_readdir] returns: at the end of the listing the
    iterator is in the ended state; an entry returned is the record the
    iterator holds, its name passed the test for [.] and [..] and converted
    without substitution. *)
Lemma win_readdir_loop_result (fuel : nat) (d d' : WIN_DIR) (w w' : World)
    (r : option win_dirent) :
  win_readdir_loop env fuel d w = Some (r, d', w') ->
  match r with
  | None => state d' = -1
  | Some e =>
      dir d' = e /\
      d_wname e = Some (cFileName (findFileData d')) /\
      is_dot_name (cFileName (findFileData d')) = false /\
      exists (name : cstr) (w0 : World),
        d_name e = Some name /\
        wchar_to_cstr env (cFileName (findFileData d')) (WIN_DEFAULT_ENCODING env)
          true w0 = ((Some name, Some 0), w')
  end.
Proof.
  revert d w. induction fuel as [| fuel IH]; intros d w; [discriminate |].
  cbn [win_readdir_loop].
  destruct (if 0 <? state d then FindNextFileW (hFind d) w
            else (Some (findFileData d), w)) as [[record |] w1] eqn:Hnext.
  2: { intros [= <- <- <-]. reflexivity. }
  destruct (is_dot_name (cFileName (findFileData
              (set_state (state (set_findFileData record d) + 1)
                 (set_findFileData record d))))) eqn:Hdot.
  { apply IH. }
  destruct (wchar_to_cstr env _ (WIN_DEFAULT_ENCODING env) true w1)
    as [[filename failed] w2] eqn:Hconv.
  destruct filename as [name |]; [| apply IH].
  destruct failed as [[| p | p] |]; try apply IH.
  intros [= <- <- <-]. cbn.
  repeat split; try assumption. eauto.
Qed.

(** The world after [wchar_to_cstr] holds the same find handles. *)
Lemma wchar_to_cstr_find_tab (wtext : wstr) (codepage : Z) (failed : bool)
    (w w' : World) (r : option cstr * option Z) :
  wchar_to_cstr env wtext codepage failed w = (r, w') -> find_tab w' = find_tab w.
Proof.
  intros H. pose proof (wchar_to_cstr_world wtext codepage failed w) as Hw.
  rewrite H in Hw. simpl in Hw. tauto.
Qed.

(** The loop ends within the bound [win_readdir] gives it. *)
Lemma readdir_fuel_enough (fuel : nat) (d : WIN_DIR) (w : World) :
  (readdir_fuel d w <= fuel)%nat -> is_Some (win_readdir_loop env fuel d w).
Proof.
  revert d w. induction fuel as [| fuel IH]; intros d w Hfuel.
  { unfold readdir_fuel in Hfuel. lia. }
  cbn [win_readdir_loop].
  destruct (if 0 <? state d then FindNextFileW (hFind d) w
            else (Some (findFileData d), w)) as [[record |] w1] eqn:Hnext.
  2: { eexists. reflexivity. }
  assert (Hless : forall n, (readdir_fuel
            (set_d_name n (set_state (state (set_findFileData record d) + 1)
               (set_findFileData record d))) w1 < readdir_fuel d w)%nat).
  { intros n. unfold readdir_fuel. cbn [state hFind set_d_name set_dir set_state
      set_findFileData].
    destruct (Z.ltb_spec 0 (state d)) as [Hpos | Hnonpos].
    - apply FindNextFileW_some in Hnext as (rest & -> & ->). simpl. lia.
    - injection Hnext as <- <-.
      destruct (find_tab w !! hFind d); simpl; lia. }
  assert (Hless' : (readdir_fuel
            (set_state (state (set_findFileData record d) + 1)
               (set_findFileData record d)) w1 < readdir_fuel d w)%nat).
  { apply (Hless None). }
  destruct (is_dot_name _).
  { apply IH. lia. }
  destruct (wchar_to_cstr env _ (WIN_DEFAULT_ENCODING env) true w1)
    as [[filename failed] w2] eqn:Hconv.
  apply wchar_to_cstr_find_tab in Hconv.
  assert (Hnext_fuel : is_Some (win_readdir_loop env fuel
            (set_d_name None (set_d_name filename
               (set_state (state (set_findFileData record d) + 1)
                  (set_findFileData record d)))) w2)).
  { apply IH. specialize (Hless None). unfold readdir_fuel in *.
    cbn [state hFind set_d_name set_dir set_state set_findFileData] in *.
    rewrite Hconv. lia. }
  destruct filename as [name |]; [| exact Hnext_fuel].
  destruct failed as [[| p | p] |]; try exact Hnext_fuel.
  eexists. reflexivity.
Qed.

(** [win_readdir] returns what its loop returns. *)
Lemma win_readdir_eq (d : WIN_DIR) (w : World) :
  state d <> -1 ->
  win_readdir_loop env (readdir_fuel (set_d_name None d) w) (set_d_name None d) w =
    Some (win_readdir env d w).
Proof.
  intros Hstate. unfold win_readdir.
  destruct (Z.eqb_spec (state d) (-1)) as [? | _]; [contradiction |].
  destruct (readdir_fuel_enough (readdir_fuel (set_d_name None d) w)
              (set_d_name None d) w) as [r Hr]; [lia |].
  rewrite Hr. reflexivity.
Qed.

(** An iterator in the ended state answers every call with null and stays as
    it is. *)
Lemma win_readdir_ended (d : WIN_DIR) (w : World) :
  state d = -1 -> win_readdir env d w = (None, d, w).
Proof. unfold win_readdir. intros ->. reflexivity. Qed.

(** A null result leaves the iterator in the ended state. *)
Lemma win_readdir_none_state (d d' : WIN_DIR) (w w' : World) :
  win_readdir env d w = (None, d', w') -> state d' = -1.
Proof.
  destruct (Z.eq_dec (state d) (-1)) as [Hended | Hrun].
  - rewrite win_readdir_ended by assumption. intros [= <- <-]. assumption.
  - intros Hres. pose proof (win_readdir_eq d w Hrun) as Hloop.
    rewrite Hres in Hloop.
    apply win_readdir_loop_result in Hloop. exact Hloop.
Qed.




(** C8: once [win_readdir] has returned null the iterator is in the ended
    state, and every later call, whatever happened in the world meanwhile,
    returns null again and leaves the iterator as it is. *)
Theorem win_readdir_end_is_terminal (d d' : WIN_DIR) (w w' : World) :
  win_readdir env d w = (None, d', w') ->
  state d' = -1 /\
  forall (n : nat) (w'' : World), win_readdir_after env n d' w'' = (None, d', w'').
Proof.
  intros Hres. apply win_readdir_none_state in Hres. split; [assumption |].
  induction n as [| n IH]; intros w''; cbn [win_readdir_after].
  - apply win_readdir_ended; assumption.
  - rewrite win_readdir_ended by assumption. apply IH.
Qed.

(** ** Opening a directory *)

Lemma fresh_handle_valid (used : gset Z) :
  (fresh_handle used =? INVALID_HANDLE_VALUE) = false.
Proof.
  pose proof (fresh_handle_pos used). apply Z.eqb_neq.
  unfold INVALID_HANDLE_VALUE. lia.
Qed.

Lemma no_translation_not_denied :
  (ERROR_NO_UNICODE_TRANSLATION =? ERROR_ACCESS_DENIED) = false.
Proof. reflexivity. Qed.

(** Runs [win_opendir] along the outcomes the hypotheses fix. *)
Ltac opendir_step :=
  first
    [ rewrite c2w_eq
    | rewrite fresh_handle_valid
    | rewrite Z.eqb_refl
    | rewrite no_translation_not_denied
    | match goal with
      | H : c2w_result _ _ _ = _ |- context [c2w_result _ _ _] => rewrite H
      | H : nt_find _ _ = _ |- context [nt_find _ _] => rewrite H
      | H : ?c <> ERROR_ACCESS_DENIED |- context [?c =? ERROR_ACCESS_DENIED] =>
          rewrite (proj2 (Z.eqb_neq c ERROR_ACCESS_DENIED) H)
      end
    | progress cbn [fst snd hFind state dir findFileData store_find set_hFind
                    set_findFileData set_state set_d_name set_dir zeroed_WIN_DIR
                    last_error errno calls find_tab open_fds
                    set_last_error set_errno log_call set_find_tab
                    set_errno_from_last_file_error default negb andb] ].

Ltac opendir_start Hm1 Hm2 :=
  unfold win_opendir, malloc; rewrite Hm1; unfold bind at 1; unfold ret at 1;
  cbn [negb]; rewrite Hm2; unfold bind at 1; unfold ret at 1; cbn [negb];
  match goal with
  | |- context [?p ++ C "\*"] => fold (listing_pattern p)
  end;
  unfold FindFirstFileW, GetLastError, bind, ret, modify, gets.

(** C3: when the listing of the first attempt fails with denied access,
    [win_opendir] returns null with [errno] set to [EACCES] after these two
    calls, without a second attempt; when the first attempt fails in another
    way (the pattern does not convert, or the listing fails with another
    code), attempt 1 is made, and lists the pattern if it converts. *)
Theorem win_opendir_access_denied (dir_path : cstr) (w : World) :
  let path := listing_pattern dir_path in
  nt_malloc env (strlen dir_path + 3) = true ->
  nt_malloc env (sizeof_WIN_DIR env) = true ->
  (forall wpath,
     c2w_result env path 0 = Some wpath ->
     nt_find env wpath = FindFails ERROR_ACCESS_DENIED ->
     exists w',
       win_opendir env dir_path w = (None, w') /\
       errno w' = EACCES /\
       new_calls w w' = [CallC2W path 0; CallFindFirstFileW wpath INVALID_HANDLE_VALUE]) /\
  (attempt_fails_otherwise env path 0 ->
     exists r w',
       win_opendir env dir_path w = (r, w') /\
       CallC2W path 1 ∈ new_calls w w' /\
       forall wpath1,
         c2w_result env path 1 = Some wpath1 ->
         exists h, last (new_calls w w') = Some (CallFindFirstFileW wpath1 h)).
Proof.
  intros path Hm1 Hm2. subst path. split.
  - intros wpath Hconv Hfind.
    opendir_start Hm1 Hm2. repeat opendir_step.
    eexists. split; [reflexivity |]. split; [reflexivity |].
    read_calls. reflexivity.
  - intros [Hconv | (wpath & code & Hconv & Hfind & Hcode)];
      opendir_start Hm1 Hm2; repeat opendir_step.
    all: destruct (c2w_result env (listing_pattern dir_path) 1) as [wpath1 |] eqn:Hconv1;
      [destruct (nt_find env wpath1) as [code1 | first rest] eqn:Hfind1 |].
    all: repeat opendir_step.
    all: try destruct (Z.eqb_spec code1 ERROR_ACCESS_DENIED).
    all: repeat opendir_step.
    all: do 2 eexists; (split; [reflexivity |]); read_calls.
    all: (split; [found_call |]).
    all: intros ? [= <-]; eexists; reflexivity.
Qed.

(** A listing that holds only [.] and [..] gives no entry: the loop skips
    every record and meets the end. *)
Lemma win_readdir_loop_only_dots (fuel : nat) (d : WIN_DIR) (w : World) :
  (readdir_fuel d w <= fuel)%nat ->
  (state d <= 0 -> is_dot_name (cFileName (findFileData d)) = true) ->
  Forall (fun r => is_dot_name (cFileName r) = true)
         (default [] (find_tab w !! hFind d)) ->
  exists (d' : WIN_DIR) (w' : World),
    win_readdir_loop env fuel d w = Some (None, d', w').
Proof.
  revert d w. induction fuel as [| fuel IH]; intros d w Hfuel Hcur Hrest.
  { unfold readdir_fuel in Hfuel. lia. }
  cbn [win_readdir_loop].
  destruct (Z.ltb_spec 0 (state d)) as [Hpos | Hnonpos].
  - unfold FindNextFileW, bind, gets, modify, ret.
    unfold readdir_fuel in Hfuel.
    destruct (find_tab w !! hFind d) as [[| r rest] |] eqn:Htab;
      [eauto | | eauto].
    cbn [default] in Hrest, Hfuel. apply Forall_cons in Hrest as [Hr Hrest].
    cbn [findFileData set_findFileData set_state state]. rewrite Hr.
    apply IH.
    + unfold readdir_fuel.
      cbn [hFind state find_tab set_state set_findFileData log_call set_find_tab].
      rewrite lookup_insert_eq. simpl in *. lia.
    + cbn [state set_state set_findFileData]. lia.
    + cbn [hFind state find_tab set_state set_findFileData log_call set_find_tab].
      rewrite lookup_insert_eq. exact Hrest.
  - cbn [findFileData set_findFileData set_state state].
    rewrite Hcur by assumption.
    apply IH.
    + unfold readdir_fuel in *.
      cbn [hFind state set_state set_findFileData]. lia.
    + intros _. cbn [findFileData set_state set_findFileData]. auto.
    + exact Hrest.
Qed.

Lemma win_readdir_only_dots (d : WIN_DIR) (w : World) :
  state d <> -1 ->
  (state d <= 0 -> is_dot_name (cFileName (findFileData d)) = true) ->
  Forall (fun r => is_dot_name (cFileName r) = true)
         (default [] (find_tab w !! hFind d)) ->
  exists (d' : WIN_DIR) (w' : World), win_readdir env d w = (None, d', w').
Proof.
  intros Hstate Hcur Hrest.
  pose proof (win_readdir_eq d w Hstate) as Hloop.
  destruct (win_readdir_loop_only_dots (readdir_fuel (set_d_name None d) w)
              (set_d_name None d) w) as (d' & w' & Hnone);
    [lia | exact Hcur | exact Hrest |].
  rewrite Hnone in Hloop. injection Hloop as <-. eauto.
Qed.

(** A directory that lists only [.] and [..] opens, and the first call of
    [win_readdir] meets the end of the listing. *)
Lemma win_opendir_empty_directory (dir_path : cstr) (w : World) :
  nt_malloc env (strlen dir_path + 3) = true ->
  nt_malloc env (sizeof_WIN_DIR env) = true ->
  lists_empty_directory env dir_path ->
  exists (d d' : WIN_DIR) (w1 w2 : World),
    win_opendir env dir_path w = (Some d, w1) /\
    win_readdir env d w1 = (None, d', w2).
Proof.
  intros Hm1 Hm2 (wpath & attr1 & attr2 & Hconv & Hfind).
  opendir_start Hm1 Hm2. repeat opendir_step.
  match goal with
  | |- exists d d' w1 w2, (Some ?x, ?y) = _ /\ _ =>
      destruct (win_readdir_only_dots x y) as (d' & w2 & Hend)
  end.
  - discriminate.
  - intros _. reflexivity.
  - cbn [hFind set_d_name set_dir set_state set_hFind set_findFileData find_tab
         set_errno set_errno_from_last_file_error log_call set_find_tab
         store_find fst snd].
    rewrite lookup_insert_eq. repeat constructor.
  - eauto 6.
Qed.

(** C10: when both attempts of [win_opendir] fail for a reason other than
    denied access (the pattern does not convert, so that no listing is asked
    for, or the listing fails, as for a path that does not exist), the result
    is a non-null iterator in the ended state, with [errno] translated from
    the last native error; every call of [win_readdir] on it returns null.
    A directory that lists only [.] and [..] gives the same picture: a
    non-null iterator whose first [win_readdir] returns null. *)
Theorem win_opendir_failure_is_exhausted (dir_path empty_path : cstr) (w : World) :
  let path := listing_pattern dir_path in
  nt_malloc env (strlen dir_path + 3) = true ->
  nt_malloc env (sizeof_WIN_DIR env) = true ->
  attempt_fails_otherwise env path 0 ->
  attempt_fails_otherwise env path 1 ->
  exists (d : WIN_DIR) (w' : World),
    win_opendir env dir_path w = (Some d, w') /\
    state d = -1 /\
    hFind d = INVALID_HANDLE_VALUE /\
    errno w' = convert_last_error_to_errno w' /\
    (forall (n : nat) (w'' : World), win_readdir_after env n d w'' = (None, d, w'')) /\
    (c2w_result env path 0 = None -> c2w_result env path 1 = None ->
     new_calls w w' = [CallC2W path 0; CallC2W path 1]) /\
    (nt_malloc env (strlen empty_path + 3) = true ->
     lists_empty_directory env empty_path ->
     exists (d0 d1 : WIN_DIR) (w0 w1 : World),
       win_opendir env empty_path w = (Some d0, w0) /\
       win_readdir env d0 w0 = (None, d1, w1)).
Proof.
  intros path Hm1 Hm2 Hfirst Hsecond. subst path.
  assert (Hended : forall d : WIN_DIR, state d = -1 ->
            forall (n : nat) (w'' : World),
              win_readdir_after env n d w'' = (None, d, w'')).
  { intros d Hstate. induction n as [| n IH]; intros w''; cbn [win_readdir_after].
    - apply win_readdir_ended; assumption.
    - rewrite win_readdir_ended by assumption. apply IH. }
  match goal with
  | |- exists d w', _ /\ _ /\ _ /\ _ /\ _ /\ _ /\ ?Q =>
      assert (Hempty : Q)
        by (intros Hm3 ?; apply win_opendir_empty_directory; assumption);
      revert Hempty; generalize Q; intros Q' Hempty
  end.
  destruct Hfirst as [Hconv0 | (wpath0 & code0 & Hconv0 & Hfind0 & Hcode0)];
    destruct Hsecond as [Hconv1 | (wpath1 & code1 & Hconv1 & Hfind1 & Hcode1)];
    opendir_start Hm1 Hm2; repeat opendir_step;
    do 2 eexists; (split; [reflexivity |]);
    (split; [reflexivity |]); (split; [reflexivity |]); (split; [reflexivity |]);
    (split; [apply Hended; reflexivity |]); read_calls;
    (split; [first [reflexivity | congruence] |]);
    exact Hempty.
Qed.

End Properties.

(** * The properties at work on the small platform *)

Example c2w_ascii : fst (c2w (toy 1) (C "abc") 0 world0) = Some (L "abc").
Proof. reflexivity. Qed.

Example c2w_invalid_bytes :
  fst (c2w (toy 1) undecodable_path 0 world0) = None
  /\ last_error (snd (c2w (toy 1) undecodable_path 0 world0)) =
       ERROR_NO_UNICODE_TRANSLATION.
Proof. split; reflexivity. Qed.

Example can_open_exclusive_existing :
  fst (can_open_exclusive (toy 1) (C "f.txt") world0) = 1
  /\ calls (snd (can_open_exclusive (toy 1) (C "f.txt") world0)) =
       [CallC2W (C "f.txt") 0; CallWsopen (L "f.txt") probe_oflag _SH_DENYWR 0 1;
        CallClose 1].
Proof. split; vm_compute; reflexivity. Qed.

Example can_open_exclusive_missing :
  fst (can_open_exclusive (toy 1) (C "g.txt") world0) = 0.
Proof. vm_compute. reflexivity. Qed.

Example win_opendir_locked :
  fst (win_opendir (toy 1) (C "locked") world0) = None
  /\ errno (snd (win_opendir (toy 1) (C "locked") world0)) = EACCES.
Proof. split; vm_compute; reflexivity. Qed.

Example win_opendir_missing :
  (state <$> fst (win_opendir (toy 1) (C "nope") world0)) = Some (-1)
  /\ errno (snd (win_opendir (toy 1) (C "nope") world0)) = ENOENT.
Proof. split; vm_compute; reflexivity. Qed.

Example win_readdir_first_entry :
  fst (fst (win_readdir (toy 1) fresh_iterator fresh_iterator_world)) =
    Some (mkDirent (Some (C "a.txt")) (Some (L "a.txt")) 0).
Proof. vm_compute. reflexivity. Qed.

Example win_readdir_directory_flag :
  fst (fst (win_readdir (toy 1)
              (mkDir (mkFindData (L "sub") FILE_ATTRIBUTE_DIRECTORY) 1
                 (mkDirent None None 0) 0)
              fresh_iterator_world)) =
    Some (mkDirent (Some (C "sub")) (Some (L "sub")) 1).
Proof. vm_compute. reflexivity. Qed.

Example make_pathw_explicit_length :
  make_pathw is_slash 47 (Some (L "/a/bxyz")) 4 (L "//c") = L "/a/b/c".
Proof. vm_compute. reflexivity. Qed.

(** ** The theorems applied *)

Lemma ascii_abc_representable : representable (toy 2) (C "abc").
Proof.
  exists (L "abc"), false. split; [reflexivity |]. split; reflexivity.
Defined.

Lemma c2w_wchar_to_cstr_roundtrip_witness :
  representable (toy 2) (C "abc") /\
  exists (wide : wstr) (w1 w2 : World),
    c2w (toy 2) (C "abc") 0 world0 = (Some wide, w1) /\
    wchar_to_cstr (toy 2) wide (-1) true w1 = ((Some (C "abc"), Some 0), w2).
Proof.
  split; [exact ascii_abc_representable |].
  apply (c2w_wchar_to_cstr_roundtrip (toy 2) (C "abc") world0).
  exact ascii_abc_representable.
Defined.


Lemma win_opendir_access_denied_witness :
  (exists w' : World,
     win_opendir (toy 1) (C "locked") world0 = (None, w') /\ errno w' = EACCES /\
     new_calls world0 w' =
       [CallC2W (listing_pattern (C "locked")) 0;
        CallFindFirstFileW (L "locked\*") INVALID_HANDLE_VALUE]) /\
  (exists (r : option WIN_DIR) (w' : World),
     win_opendir (toy 1) (C "nope") world0 = (r, w') /\
     CallC2W (listing_pattern (C "nope")) 1 ∈ new_calls world0 w').
Proof.
  split.
  - destruct (win_opendir_access_denied (toy 1) (C "locked") world0 eq_refl eq_refl)
      as [Hdenied _].
    apply (Hdenied (L "locked\*")); reflexivity.
  - destruct (win_opendir_access_denied (toy 1) (C "nope") world0 eq_refl eq_refl)
      as [_ Hother].
    destruct Hother as (r & w' & Hrun & Hretry & _).
    + right. exists (L "nope\*"), ERROR_PATH_NOT_FOUND.
      split; [reflexivity |]. split; [reflexivity | discriminate].
    + exists r, w'. split; assumption.
Defined.

Lemma make_pathw_examples_witness :
  win32_IS_PATH_SEPARATOR_W 47 = true /\ win32_IS_PATH_SEPARATOR_W 99 = false /\
  make_pathw win32_IS_PATH_SEPARATOR_W 92 (Some (L "/a/b")) SIZE_T_MINUS_1 (L "/c") =
    L "/a/b\c" /\
  make_pathw win32_IS_PATH_SEPARATOR_W 92 (Some (L "/a/b/")) SIZE_T_MINUS_1 (L "c") =
    L "/a/b/\c" /\
  is_slash 47 = true /\ is_slash 99 = false /\
  make_pathw is_slash 47 (Some (L "/a/b")) SIZE_T_MINUS_1 (L "/c") = L "/a/b/c" /\
  make_pathw is_slash 47 (Some (L "/a/b/")) SIZE_T_MINUS_1 (L "c") = L "/a/b/c".
Proof.
  split; [reflexivity |]. split; [reflexivity |].
  destruct (make_pathw_examples win32_IS_PATH_SEPARATOR_W 92) as [_ Hwin].
  destruct (Hwin eq_refl eq_refl) as [_ Hbackslash].
  destruct (Hbackslash eq_refl) as [Hfirst Hsecond].
  split; [exact Hfirst |]. split; [exact Hsecond |].
  split; [reflexivity |]. split; [reflexivity |].
  destruct (make_pathw_examples is_slash 47) as [_ Hunix].
  destruct (Hunix eq_refl eq_refl) as [Hslash _].
  exact (Hslash eq_refl).
Defined.

Lemma pair_eta3 {A B D : Type} (r : A * B * D) (a : A) :
  fst (fst r) = a -> r = (a, snd (fst r), snd r).
Proof. destruct r as [[x y] z]. simpl. intros ->. reflexivity. Defined.




Lemma win_readdir_end_is_terminal_witness :
  fst (fst (win_readdir (toy 1) read_iterator read_iterator_world)) = None /\
  state (snd (fst (win_readdir (toy 1) read_iterator read_iterator_world))) = -1 /\
  forall (n : nat) (w'' : World),
    win_readdir_after (toy 1) n
      (snd (fst (win_readdir (toy 1) read_iterator read_iterator_world))) w'' =
    (None, snd (fst (win_readdir (toy 1) read_iterator read_iterator_world)), w'').
Proof.
  assert (Hend :
    fst (fst (win_readdir (toy 1) read_iterator read_iterator_world)) = None)
    by (vm_compute; reflexivity).
  split; [exact Hend |].
  apply (win_readdir_end_is_terminal (toy 1) read_iterator _
           read_iterator_world _ (pair_eta3 _ _ Hend)).
Defined.

Lemma can_open_exclusive_probe_witness :
  probe_opens (toy 1) (C "f.txt") 0 /\
  exists (res : Z) (w' : World),
    can_open_exclusive (toy 1) (C "f.txt") world0 = (res, w') /\
    res = 1 /\ open_fds w' = open_fds world0 /\
    CallC2W (C "f.txt") 1 ∉ new_calls world0 w'.
Proof.
  assert (Hopens : probe_opens (toy 1) (C "f.txt") 0)
    by (exists (L "f.txt"); split; reflexivity).
  split; [exact Hopens |].
  destruct (can_open_exclusive_probe (toy 1) (C "f.txt") world0)
    as (res & w' & Hrun & _ & Hres & Hfds & _ & _ & Hstop).
  exists res, w'. split; [exact Hrun |]. split; [| split].
  - apply Hres. left. exact Hopens.
  - exact Hfds.
  - apply Hstop. exact Hopens.
Defined.

Lemma nope_fails_otherwise (try_no : Z) :
  try_no = 0 \/ try_no = 1 ->
  attempt_fails_otherwise (toy 1) (listing_pattern (C "nope")) try_no.
Proof.
  intros Htry. right. exists (L "nope\*"), ERROR_PATH_NOT_FOUND.
  split; [destruct Htry as [-> | ->]; reflexivity |].
  split; [reflexivity | discriminate].
Defined.

Lemma win_opendir_failure_is_exhausted_witness :
  (exists (d : WIN_DIR) (w' : World),
     win_opendir (toy 1) (C "nope") world0 = (Some d, w') /\
     state d = -1 /\ errno w' = ENOENT /\
     exists (d0 d1 : WIN_DIR) (w0 w1 : World),
       win_opendir (toy 1) (C "e") world0 = (Some d0, w0) /\
       win_readdir (toy 1) d0 w0 = (None, d1, w1)) /\
  (exists (d : WIN_DIR) (w' : World),
     win_opendir (toy 1) undecodable_path world0 = (Some d, w') /\
     state d = -1 /\
     new_calls world0 w' =
       [CallC2W (listing_pattern undecodable_path) 0;
        CallC2W (listing_pattern undecodable_path) 1]).
Proof.
  split.
  - destruct (win_opendir_failure_is_exhausted (toy 1) (C "nope") (C "e") world0
                eq_refl eq_refl
                (nope_fails_otherwise 0 (or_introl eq_refl))
                (nope_fails_otherwise 1 (or_intror eq_refl)))
      as (d & w' & Hrun & Hstate & _ & Herrno & _ & _ & Hempty).
    exists d, w'. split; [exact Hrun |]. split; [exact Hstate |]. split.
    + rewrite Herrno.
      replace w' with (snd (win_opendir (toy 1) (C "nope") world0))
        by (rewrite Hrun; reflexivity).
      vm_compute. reflexivity.
    + apply Hempty; [reflexivity |].
      exists (L "e\*"), 16, 16. split; reflexivity.
  - destruct (win_opendir_failure_is_exhausted (toy 1) undecodable_path (C "e")
                world0 eq_refl eq_refl (or_introl eq_refl) (or_introl eq_refl))
      as (d & w' & Hrun & Hstate & _ & _ & _ & Hcalls & _).
    exists d, w'. split; [exact Hrun |]. split; [exact Hstate |].
    apply Hcalls; reflexivity.
Defined.

(** * Further properties of the code *)

Section ConverterFacts.
Variable env : Platform.

Lemma attempt_codepage_1 : attempt_codepage env 1 = secondary_codepage env.
Proof.
  unfold attempt_codepage, secondary_codepage, legacy_codepage.
  destruct (flag_set env (OPT_UTF8 env)); reflexivity.
Qed.

(** X1: attempt 0 of [c2w] decodes strictly with the primary code page of
    the options and attempt 1 with the other one; the two differ, and exactly
    one of them is UTF-8. *)
Theorem c2w_attempts (s : cstr) (w : World) :
  fst (c2w env s 0 w) = strict_decode env (primary_codepage (encoding_mode env)) s
  /\ fst (c2w env s 1 w) = strict_decode env (secondary_codepage env) s
  /\ primary_codepage (encoding_mode env) <> secondary_codepage env
  /\ (primary_codepage (encoding_mode env) = CP_UTF8 <->
      secondary_codepage env <> CP_UTF8).
Proof.
  rewrite !c2w_result_any, !c2w_result_eq, attempt_codepage_0, attempt_codepage_1.
  unfold strict_decode. split; [reflexivity |]. split; [reflexivity |].
  unfold encoding_mode, secondary_codepage, legacy_codepage.
  destruct (flag_set env (OPT_UTF8 env)), (flag_set env (OPT_OEM env)); cbn;
    (split; [discriminate |]); split; intros H; try discriminate;
    try reflexivity; exfalso; apply H; reflexivity.
Qed.

(** X2: [c2w] adds its call to the log and changes nothing else, except that
    a failed conversion leaves [ERROR_NO_UNICODE_TRANSLATION] as the last
    error; a successful one leaves the last error as it was. *)
Theorem c2w_effect (s : cstr) (try_no : Z) (w : World) :
  calls (snd (c2w env s try_no w)) = calls w ++ [CallC2W s try_no]
  /\ errno (snd (c2w env s try_no w)) = errno w
  /\ open_fds (snd (c2w env s try_no w)) = open_fds w
  /\ find_tab (snd (c2w env s try_no w)) = find_tab w
  /\ last_error (snd (c2w env s try_no w)) =
       match fst (c2w env s try_no w) with
       | Some _ => last_error w
       | None => ERROR_NO_UNICODE_TRANSLATION
       end.
Proof.
  rewrite c2w_eq. destruct (c2w_result env s try_no); repeat split.
Qed.

Lemma resolved_codepage_eq (codepage : Z) :
  resolved_codepage env codepage =
    if codepage =? -1 then
      (if flag_set env (OPT_UTF8 env) then CP_UTF8
       else if flag_set env (OPT_OEM env) then CP_OEMCP else CP_ACP)
    else codepage.
Proof.
  unfold resolved_codepage, encoding_mode.
  destruct (codepage =? -1); [| reflexivity].
  destruct (flag_set env (OPT_UTF8 env)); [reflexivity |].
  destruct (flag_set env (OPT_OEM env)); reflexivity.
Qed.

(** What [wchar_to_cstr] returns, in every world. *)
Lemma wchar_to_cstr_result (wtext : wstr) (codepage : Z) (failed : bool) (w : World) :
  fst (wchar_to_cstr env wtext codepage failed w) =
    match nt_encode env (resolved_codepage env codepage) wtext with
    | None => (None, if failed then Some 1 else None)
    | Some (bytes, used_default) =>
        (Some bytes,
         if failed
         then Some (if resolved_codepage env codepage =? CP_UTF8 then 0
                    else if used_default then 1 else 0)
         else None)
    end.
Proof.
  rewrite resolved_codepage_eq.
  unfold wchar_to_cstr, WideCharToMultiByte, bind, ret, modify.
  set (cp := if codepage =? -1 then _ else codepage).
  destruct (cp =? CP_UTF8), failed;
    destruct (nt_encode env cp wtext) as [[bytes [|]] |]; reflexivity.
Qed.

(** X3: [wchar_to_cstr] returns null exactly when the code page refuses the
    text, and then sets the flag to 1; otherwise it returns the bytes of the
    code page, and the flag is 0 for UTF-8, whatever was substituted, and for
    another code page tells whether a default character was used.  The
    sentinel -1 selects the primary code page of the options. *)
Theorem wchar_to_cstr_flag (wtext : wstr) (codepage : Z) (w : World) :
  fst (wchar_to_cstr env wtext codepage true w) =
    match nt_encode env (resolved_codepage env codepage) wtext with
    | None => (None, Some 1)
    | Some (bytes, used_default) =>
        (Some bytes,
         Some (if resolved_codepage env codepage =? CP_UTF8 then 0
               else if used_default then 1 else 0))
    end.
Proof. apply wchar_to_cstr_result. Qed.

(** X4: the bytes [wchar_to_cstr] returns do not depend on whether the
    caller passes a flag; [w2c] returns the bytes of the conversion with the
    default code page, and with a null flag pointer nothing is stored. *)
Theorem wchar_to_cstr_flag_free (wtext : wstr) (codepage : Z) (w1 w2 : World) :
  fst (fst (wchar_to_cstr env wtext codepage true w1)) =
    fst (fst (wchar_to_cstr env wtext codepage false w2))
  /\ snd (fst (wchar_to_cstr env wtext codepage false w2)) = None
  /\ fst (w2c env wtext w1) = fst (fst (wchar_to_cstr env wtext (-1) true w2)).
Proof.
  unfold w2c, bind, ret.
  destruct (wchar_to_cstr env wtext (-1) false w1) as [r1 w1'] eqn:H1.
  pose proof (wchar_to_cstr_result wtext (-1) false w1) as Hr1.
  rewrite H1 in Hr1. cbn [fst] in *. rewrite Hr1.
  rewrite !wchar_to_cstr_result.
  destruct (nt_encode env (resolved_codepage env codepage) wtext) as [[? ?] |];
    destruct (nt_encode env (resolved_codepage env (-1)) wtext) as [[? ?] |];
    repeat split.
Qed.

Lemma land_lor_zero (f a b c : Z) :
  Z.land f (Z.lor (Z.lor a b) c) = 0 -> Z.land f a = 0.
Proof.
  rewrite !Z.land_lor_distr_r. intros H.
  apply Z.lor_eq_0_iff in H as [H _]. apply Z.lor_eq_0_iff in H as [H _].
  exact H.
Qed.

(** X5: with the UTF-8 option [win_to_utf8] returns the string as it is,
    valid UTF-8 or not, without converting anything and without touching the
    world. *)
Theorem win_to_utf8_utf8_mode (ansi : Z) (s : cstr) (w : World) :
  flag_set env (OPT_UTF8 env) = true ->
  win_to_utf8 env ansi s w = Some (Some s, w).
Proof.
  intros Hutf. unfold win_to_utf8. rewrite Hutf.
  destruct (Z.eqb_spec (Z.land (opt_flags env)
              (Z.lor (Z.lor (OPT_UTF8 env) (OPT_OEM env)) ansi)) 0) as [Hz | _];
    [| reflexivity].
  apply land_lor_zero in Hz. unfold flag_set in Hutf. rewrite Hz in Hutf.
  discriminate.
Qed.

(** The result of [win_to_utf8] with a legacy option, as a function of the
    two conversions it makes. *)
Lemma win_to_utf8_legacy_result (ansi : Z) (s : cstr) (w : World) :
  flag_set env (OPT_UTF8 env) = false ->
  (Z.land (opt_flags env) (Z.lor (Z.lor (OPT_UTF8 env) (OPT_OEM env)) ansi) = 0 ->
   win_to_utf8 env ansi s w = None)
  /\ (Z.land (opt_flags env) (Z.lor (Z.lor (OPT_UTF8 env) (OPT_OEM env)) ansi) <> 0 ->
      exists w' : World,
        win_to_utf8 env ansi s w =
          Some (match strict_decode env (legacy_codepage env) s with
                | None => None
                | Some wide => fst <$> nt_encode env CP_UTF8 wide
                end, w')
        /\ errno w' = errno w /\ open_fds w' = open_fds w
        /\ find_tab w' = find_tab w).
Proof.
  intros Hutf. unfold win_to_utf8. rewrite Hutf. split.
  - intros ->. reflexivity.
  - intros Hbits.
    destruct (Z.eqb_spec (Z.land (opt_flags env)
                (Z.lor (Z.lor (OPT_UTF8 env) (OPT_OEM env)) ansi)) 0) as [? | _];
      [contradiction |].
    assert (Hprimary : primary_codepage (encoding_mode env) = legacy_codepage env).
    { unfold encoding_mode, legacy_codepage. rewrite Hutf.
      destruct (flag_set env (OPT_OEM env)); reflexivity. }
    rewrite c2w_eq, c2w_result_eq, attempt_codepage_0, Hprimary.
    unfold strict_decode.
    destruct (snd (nt_decode env (legacy_codepage env) s));
      [| eexists; split; [reflexivity | repeat split]].
    set (wide := fst (nt_decode env (legacy_codepage env) s)).
    set (w1 := log_call (CallC2W s 0) w).
    pose proof (wchar_to_cstr_result wide CP_UTF8 false w1) as Hr.
    pose proof (wchar_to_cstr_world env wide CP_UTF8 false w1) as (He' & Hf' & Ht' & _).
    destruct (wchar_to_cstr env wide CP_UTF8 false w1) as [res w2].
    cbn [fst snd] in *. exists w2. split; [| repeat split; assumption].
    rewrite Hr. unfold resolved_codepage. cbn.
    destruct (nt_encode env CP_UTF8 wide) as [[? ?] |]; reflexivity.
Qed.

(** When the encoding of a decoded text is null: the text did not decode, or
    the UTF-8 conversion refused it. *)
Lemma utf8_of_decoded_none (decoded : option wstr) :
  match decoded with
  | None => None
  | Some wide => fst <$> nt_encode env CP_UTF8 wide
  end = None <->
  decoded = None \/
  exists wide : wstr, decoded = Some wide /\ nt_encode env CP_UTF8 wide = None.
Proof.
  destruct decoded as [wide |].
  - destruct (nt_encode env CP_UTF8 wide) as [[bytes used] |] eqn:Henc; cbn; split.
    + discriminate.
    + intros [Hnone | (wide' & [= <-] & Hrefused)]; congruence.
    + intros _. right. exists wide. split; [reflexivity | exact Henc].
    + reflexivity.
  - split; [intros _; left |]; reflexivity.
Qed.

(** X6: with a legacy option [win_to_utf8] returns the UTF-8 encoding of the
    text the legacy code page decodes the string to.  It returns null exactly
    when the legacy code page does not decode all of the string or the UTF-8
    conversion refuses the decoded text.  Neither [errno] nor a handle is
    touched.  With none of the three encoding bits set the assertion
    fails. *)
Theorem win_to_utf8_legacy_mode (ansi : Z) (s : cstr) (w : World) :
  flag_set env (OPT_UTF8 env) = false ->
  (Z.land (opt_flags env) (Z.lor (Z.lor (OPT_UTF8 env) (OPT_OEM env)) ansi) = 0 ->
   win_to_utf8 env ansi s w = None)
  /\ (Z.land (opt_flags env) (Z.lor (Z.lor (OPT_UTF8 env) (OPT_OEM env)) ansi) <> 0 ->
      exists (r : option cstr) (w' : World),
        win_to_utf8 env ansi s w = Some (r, w')
        /\ r = match strict_decode env (legacy_codepage env) s with
               | None => None
               | Some wide => fst <$> nt_encode env CP_UTF8 wide
               end
        /\ (r = None <->
            strict_decode env (legacy_codepage env) s = None \/
            exists wide : wstr,
              strict_decode env (legacy_codepage env) s = Some wide /\
              nt_encode env CP_UTF8 wide = None)
        /\ errno w' = errno w /\ open_fds w' = open_fds w
        /\ find_tab w' = find_tab w).
Proof.
  intros Hutf.
  destruct (win_to_utf8_legacy_result ansi s w Hutf) as [Hassert Hrun].
  split; [exact Hassert |].
  intros Hbits. destruct (Hrun Hbits) as (w' & Heq & Hframe).
  eexists _, w'. split; [exact Heq |].
  split; [reflexivity |].
  split; [apply utf8_of_decoded_none | exact Hframe].
Qed.

End ConverterFacts.

(** ** Exclusive file accessor *)

(** Splits the goal along the outcomes of the conversions and native calls
    it mentions. *)
Ltac case_outcome :=
  match goal with
  | |- context [match c2w_result ?e ?s ?i with _ => _ end] =>
      let H := fresh "Hconv" in destruct (c2w_result e s i) eqn:H
  | |- context [match nt_fsopen ?e ?a ?b ?c with _ => _ end] =>
      let H := fresh "Hopen" in destruct (nt_fsopen e a b c) as [? |] eqn:H
  | |- context [match nt_find ?e ?a with _ => _ end] =>
      let H := fresh "Hfind" in destruct (nt_find e a) as [? | ? ?] eqn:H
  | |- context [if ?x =? ?c then _ else _] =>
      destruct (Z.eqb_spec x c); [try subst x |]
  end.

Ltac member_cases :=
  repeat match goal with
         | H : _ ∈ _ :: _ |- _ => apply elem_of_cons in H as [H | H]
         | H : _ ∈ [] |- _ => inversion H
         | H : CallC2W _ _ = _ |- _ => inversion H; clear H
         | H : CallWfsopen _ _ _ _ = _ |- _ => inversion H; clear H
         | H : CallFindFirstFileW _ _ = _ |- _ => inversion H; clear H
         end.

Section AccessorFacts.
Variable env : Platform.

(** Runs the two iterations of [win_fopen_ex] along every outcome. *)
Ltac fopen_cases :=
  repeat first [ rewrite win_fopen_ex_loop_step; cbv zeta | case_outcome ];
  cbn [win_fopen_ex_loop]; unfold ret; cbn [fst snd].

Lemma win_fopen_ex_eq (path mode : cstr) (exclusive fd : Z) (w w' : World) :
  win_fopen_ex env path mode exclusive w = Some (fd, w') ->
  snd (nt_decode env CP_UTF8 mode) = true /\
  win_fopen_ex_loop env [0; 1] path (fst (nt_decode env CP_UTF8 mode)) exclusive 0 w =
    (fd, w').
Proof.
  unfold win_fopen_ex, utf8_to_wchar. rewrite cstr_to_wchar_eq.
  destruct (snd (nt_decode env CP_UTF8 mode)); [| discriminate].
  intros [= H]. split; [reflexivity | exact H].
Qed.

(** X7: [win_fopen_ex] either returns null and holds no more streams than
    before, or returns a stream that was not open before and is the one
    stream added; find handles are not touched. *)
Theorem win_fopen_ex_streams (path mode : cstr) (exclusive fd : Z) (w w' : World) :
  win_fopen_ex env path mode exclusive w = Some (fd, w') ->
  find_tab w' = find_tab w /\
  ((fd = 0 /\ open_fds w' = open_fds w) \/
   (fd <> 0 /\ (fd ∉ open_fds w) /\ open_fds w' = {[fd]} ∪ open_fds w)).
Proof.
  intros Hrun. apply win_fopen_ex_eq in Hrun as [_ Hrun].
  pose proof (fresh_handle_pos (open_fds w)) as Hpos.
  pose proof (fresh_handle_fresh (open_fds w)) as Hfresh.
  replace fd with (fst (win_fopen_ex_loop env [0; 1] path
                          (fst (nt_decode env CP_UTF8 mode)) exclusive 0 w))
    by (rewrite Hrun; reflexivity).
  replace w' with (snd (win_fopen_ex_loop env [0; 1] path
                          (fst (nt_decode env CP_UTF8 mode)) exclusive 0 w))
    by (rewrite Hrun; reflexivity).
  clear Hrun. fopen_cases.
  all: split; [reflexivity |].
  all: cbn [open_fds find_tab log_call set_errno set_last_error set_open_fds].
  all: first [ left; split; reflexivity
             | right; split; [lia |]; split; [exact Hfresh | reflexivity] ].
Qed.

(** X8: [win_fopen_ex] makes at most two native opens; each opens a wide
    form of the path, with the converted mode and with writers denied exactly
    when [exclusive] is non-zero; beside them only the two conversions of the
    path are logged. *)
Theorem win_fopen_ex_calls (path mode : cstr) (exclusive fd : Z) (w w' : World) :
  win_fopen_ex env path mode exclusive w = Some (fd, w') ->
  (length (stream_opens (new_calls w w')) <= 2)%nat
  /\ (forall wpath wmode shflag r,
        CallWfsopen wpath wmode shflag r ∈ new_calls w w' ->
        wmode = fst (nt_decode env CP_UTF8 mode)
        /\ shflag = (if negb (exclusive =? 0) then _SH_DENYWR else _SH_DENYNO)
        /\ (c2w_result env path 0 = Some wpath \/ c2w_result env path 1 = Some wpath))
  /\ (forall c, c ∈ new_calls w w' ->
        is_stream_open c = true \/ c = CallC2W path 0 \/ c = CallC2W path 1).
Proof.
  intros Hrun.
  apply win_fopen_ex_eq in Hrun as [_ Hrun].
  replace w' with (snd (win_fopen_ex_loop env [0; 1] path
                          (fst (nt_decode env CP_UTF8 mode)) exclusive 0 w))
    by (rewrite Hrun; reflexivity).
  clear Hrun. fold (fopen_shflag exclusive). fopen_cases.
  all: read_calls.
  all: split; [cbn; lia |].
  all: split; [ intros ? ? ? ? Hin; member_cases; subst; auto
              | intros c Hin; member_cases; subst; cbn; auto ].
Qed.

(** X9: [win_fopen_ex] returns a stream exactly when attempt 0 converts and
    opens, or attempt 0 does not convert or fails to open with [ENOENT] and
    attempt 1 converts and opens. *)
Theorem win_fopen_ex_success (path mode : cstr) (exclusive fd : Z) (w w' : World) :
  win_fopen_ex env path mode exclusive w = Some (fd, w') ->
  let wmode := fst (nt_decode env CP_UTF8 mode) in
  fd <> 0 <->
    fopen_opens env path wmode exclusive 0 \/
    (fopen_goes_on env path wmode exclusive 0 /\
     fopen_opens env path wmode exclusive 1).
Proof.
  intros Hrun wmode. subst wmode.
  apply win_fopen_ex_eq in Hrun as [_ Hrun].
  replace fd with (fst (win_fopen_ex_loop env [0; 1] path
                          (fst (nt_decode env CP_UTF8 mode)) exclusive 0 w))
    by (rewrite Hrun; reflexivity).
  clear Hrun. unfold fopen_opens, fopen_goes_on.
  pose proof (fresh_handle_pos (open_fds w)) as Hpos.
  fopen_cases.
  all: cbn [open_fds find_tab log_call set_errno set_last_error set_open_fds].
  all: split;
    [ intros Hfd;
      first [ contradiction
            | left; eexists; split; [reflexivity | assumption]
            | right; split;
              [ first [ left; reflexivity
                      | right; eexists; split; [reflexivity | assumption] ]
              | eexists; split; [reflexivity | assumption] ] ]
    | intros [(? & Hc & Ho) | [[Hc0 | (? & Hc0 & Ho0)] (? & Hc & Ho)]];
      first [ lia | discriminate
            | injection Hc as <-; congruence
            | injection Hc0 as <-; congruence ] ].
Qed.

(** X10: when [win_fopen_ex] returns null, either neither attempt converted
    the path, no native open was made and [errno] is what it was before the
    call, or [errno] is the error of the last native open made. *)
Theorem win_fopen_ex_failure (path mode : cstr) (exclusive : Z) (w w' : World) :
  win_fopen_ex env path mode exclusive w = Some (0, w') ->
  (c2w_result env path 0 = None /\ c2w_result env path 1 = None /\
   errno w' = errno w /\ stream_opens (new_calls w w') = [])
  \/ (exists wpath wmode shflag,
        last (stream_opens (new_calls w w')) =
          Some (CallWfsopen wpath wmode shflag 0) /\
        nt_fsopen env wpath wmode shflag = Fails (errno w')).
Proof.
  intros Hrun. apply win_fopen_ex_eq in Hrun as [_ Hrun].
  pose proof (fresh_handle_pos (open_fds w)) as Hpos.
  assert (Hfd : fst (win_fopen_ex_loop env [0; 1] path
                       (fst (nt_decode env CP_UTF8 mode)) exclusive 0 w) = 0)
    by (rewrite Hrun; reflexivity).
  replace w' with (snd (win_fopen_ex_loop env [0; 1] path
                          (fst (nt_decode env CP_UTF8 mode)) exclusive 0 w))
    by (rewrite Hrun; reflexivity).
  clear Hrun. revert Hfd. fopen_cases.
  all: cbn [open_fds find_tab log_call set_errno set_last_error set_open_fds].
  all: intros Hfd; try lia.
  all: read_calls.
  all: first [ left; repeat split; reflexivity
             | right; do 3 eexists; split; [reflexivity | cbn; assumption] ].
Qed.

End AccessorFacts.

(** ** Error translator *)

(** X11: the translator returns 0 for the no-error value only: every other
    native error gets a non-zero [errno]. *)
Theorem convert_last_error_to_errno_zero (w : World) :
  convert_last_error_to_errno w = 0 <-> last_error w = NO_ERROR.
Proof.
  unfold convert_last_error_to_errno.
  generalize (last_error w); intros e. unfold_codes.
  destruct (Z.eqb_spec e 0) as [-> | Hne]; [split; reflexivity |].
  split; [| contradiction].
  repeat match goal with
         | |- context [e =? ?c] =>
             destruct (Z.eqb_spec e c); [subst e; vm_compute; discriminate |]
         end.
  cbn [orb]. destruct ((19 <=? e) && (e <=? 36)); discriminate.
Qed.

(** ** Path composer *)

Lemma last_is_nth (l : list Z) :
  l <> [] -> last l = Some (nth (pred (length l)) l 0).
Proof.
  induction l as [| a [| b t] IH]; intros Hne; [congruence | reflexivity |].
  change (last (a :: b :: t)) with (last (b :: t)).
  rewrite IH by congruence. reflexivity.
Qed.

Section PathComposerMore.
Variable IS_PATH_SEPARATOR_W : wchar -> bool.
Variable SYS_PATH_SEPARATOR : wchar.

Lemma skip_separators_app (seps filename : wstr) :
  forallb IS_PATH_SEPARATOR_W seps = true ->
  skip_separators IS_PATH_SEPARATOR_W (seps ++ filename) =
    skip_separators IS_PATH_SEPARATOR_W filename.
Proof.
  induction seps as [| c seps IH]; simpl; [reflexivity |].
  intros H. apply andb_true_iff in H as [-> H]. auto.
Qed.

(** The directory length [make_pathw] works with. *)
Lemma make_pathw_unfold (dir : wstr) (dir_len : Z) (filename : wstr) :
  make_pathw IS_PATH_SEPARATOR_W SYS_PATH_SEPARATOR (Some dir) dir_len filename =
    let n := if dir_len =? SIZE_T_MINUS_1 then wcslen dir else dir_len in
    (if 0 <? n then
       let res := take (Z.to_nat n) dir in
       if negb (char_at res (Z.to_nat (n - 1)) =? SYS_PATH_SEPARATOR)
       then res ++ [SYS_PATH_SEPARATOR] else res
     else [])
    ++ skip_separators IS_PATH_SEPARATOR_W filename.
Proof. reflexivity. Qed.

(** X12: with a directory and a length [n] within it, given or computed,
    [make_pathw] returns the first [n] units of the directory, then the
    system separator unless that is the last of them, then the filename
    without its leading separators.  Only the system separator counts at the
    end of the directory. *)
Theorem make_pathw_with_dir (dir : wstr) (dir_len : Z) (filename : wstr) :
  let n := if dir_len =? SIZE_T_MINUS_1 then wcslen dir else dir_len in
  0 < n <= wcslen dir ->
  make_pathw IS_PATH_SEPARATOR_W SYS_PATH_SEPARATOR (Some dir) dir_len filename =
    take (Z.to_nat n) dir
    ++ (if bool_decide (last (take (Z.to_nat n) dir) = Some SYS_PATH_SEPARATOR)
        then [] else [SYS_PATH_SEPARATOR])
    ++ skip_separators IS_PATH_SEPARATOR_W filename.
Proof.
  intros n [Hpos Hle]. rewrite make_pathw_unfold. fold n. cbv zeta.
  destruct (Z.ltb_spec 0 n) as [_ | ?]; [| lia].
  unfold wcslen in Hle.
  assert (Hlen : length (take (Z.to_nat n) dir) = Z.to_nat n)
    by (rewrite length_take; lia).
  assert (Hne : take (Z.to_nat n) dir <> [])
    by (intros Hnil; rewrite Hnil in Hlen; simpl in Hlen; lia).
  rewrite (last_is_nth _ Hne), Hlen.
  replace (Z.to_nat (n - 1)) with (pred (Z.to_nat n)) by lia.
  unfold char_at.
  destruct (Z.eqb_spec (nth (pred (Z.to_nat n)) (take (Z.to_nat n) dir) 0)
              SYS_PATH_SEPARATOR) as [Heq | Hneq]; cbn [negb].
  - rewrite bool_decide_eq_true_2 by (f_equal; exact Heq). reflexivity.
  - rewrite bool_decide_eq_false_2 by (intros [= Heq]; contradiction).
    rewrite <- app_assoc. reflexivity.
Qed.

(** X13: for a directory length within the directory, the path [make_pathw]
    builds, with its terminator, fits the buffer it allocates, of
    [dir_len + len + 2] units, where [dir_len] is the directory length it
    works with and [len] the length of the filename it appends. *)
Theorem make_pathw_fits (dir_path : option wstr) (dir_len : Z) (filename : wstr) :
  let n := match dir_path with
           | None => 0
           | Some dir => if dir_len =? SIZE_T_MINUS_1 then wcslen dir else dir_len
           end in
  let len := match dir_path with
             | None => wcslen filename
             | Some _ => wcslen (skip_separators IS_PATH_SEPARATOR_W filename)
             end in
  0 <= n <= match dir_path with Some dir => wcslen dir | None => 0 end ->
  wcslen (make_pathw IS_PATH_SEPARATOR_W SYS_PATH_SEPARATOR dir_path dir_len filename)
    + 1 <= n + len + 2.
Proof.
  destruct dir_path as [dir |]; cbv zeta.
  - intros [Hn _]. rewrite make_pathw_unfold. cbv zeta.
    set (n := if dir_len =? SIZE_T_MINUS_1 then wcslen dir else dir_len) in *.
    unfold wcslen. rewrite length_app.
    destruct (0 <? n);
      [destruct (negb _); rewrite ?length_app, length_take; simpl; lia
      | simpl; lia].
  - intros _. unfold make_pathw, wcslen. simpl. lia.
Qed.

(** A directory of length zero, the empty string or an explicit length 0,
    adds nothing, not even a separator: the result is the filename without
    its leading separators. *)
Lemma make_pathw_empty_dir (dir : wstr) (filename : wstr) :
  make_pathw IS_PATH_SEPARATOR_W SYS_PATH_SEPARATOR (Some []) SIZE_T_MINUS_1 filename =
    skip_separators IS_PATH_SEPARATOR_W filename
  /\ make_pathw IS_PATH_SEPARATOR_W SYS_PATH_SEPARATOR (Some dir) 0 filename =
       skip_separators IS_PATH_SEPARATOR_W filename.
Proof. split; reflexivity. Qed.

(** X14: with a directory given, separators put in front of the filename do
    not change the result, and what follows the directory part never starts
    with a separator. *)
Theorem make_pathw_leading_separators (dir seps filename : wstr) (dir_len : Z) :
  forallb IS_PATH_SEPARATOR_W seps = true ->
  make_pathw IS_PATH_SEPARATOR_W SYS_PATH_SEPARATOR (Some dir) dir_len (seps ++ filename) =
    make_pathw IS_PATH_SEPARATOR_W SYS_PATH_SEPARATOR (Some dir) dir_len filename
  /\ exists prefix rest : wstr,
       make_pathw IS_PATH_SEPARATOR_W SYS_PATH_SEPARATOR (Some dir) dir_len
         (seps ++ filename) = prefix ++ rest
       /\ rest = skip_separators IS_PATH_SEPARATOR_W filename
       /\ match rest with
          | c :: _ => IS_PATH_SEPARATOR_W c = false
          | [] => True
          end.
Proof.
  intros Hseps. rewrite !make_pathw_unfold. cbv zeta.
  rewrite (skip_separators_app _ _ Hseps). split; [reflexivity |].
  do 2 eexists. split; [reflexivity |]. split; [reflexivity |].
  destruct (skip_separators_drop IS_PATH_SEPARATOR_W filename) as (k & _ & _ & H).
  exact H.
Qed.

End PathComposerMore.

(** ** Directory iterator *)

Section DirectoryFacts.
Variable env : Platform.

(** Runs [win_opendir] along every outcome of the allocations, the
    conversions and the listings, using the outcomes the hypotheses fix. *)
Ltac open_step :=
  first
    [ rewrite c2w_eq
    | rewrite fresh_handle_valid
    | rewrite Z.eqb_refl
    | rewrite no_translation_not_denied
    | match goal with
      | H : nt_malloc _ _ = _ |- context [nt_malloc _ _] => rewrite H
      | H : c2w_result _ _ _ = _ |- context [c2w_result _ _ _] => rewrite H
      | H : nt_find _ _ = _ |- context [nt_find _ _] => rewrite H
      | H : ?c <> ERROR_ACCESS_DENIED |- context [?c =? ERROR_ACCESS_DENIED] =>
          rewrite (proj2 (Z.eqb_neq c ERROR_ACCESS_DENIED) H)
      end
    | progress cbn [fst snd hFind state dir findFileData store_find set_hFind
                    set_findFileData set_state set_d_name set_dir zeroed_WIN_DIR
                    last_error errno calls find_tab open_fds
                    set_last_error set_errno log_call set_find_tab
                    set_errno_from_last_file_error default negb andb]
    | match goal with
      | |- context [if nt_malloc ?e ?n then _ else _] =>
          let H := fresh "Hmalloc" in destruct (nt_malloc e n) eqn:H
      | |- context [match c2w_result ?e ?s ?i with _ => _ end] =>
          let H := fresh "Hconv" in destruct (c2w_result e s i) eqn:H
      | |- context [match nt_find ?e ?a with _ => _ end] =>
          let H := fresh "Hfind" in destruct (nt_find e a) as [? | ? ?] eqn:H
      | |- context [?c =? ERROR_ACCESS_DENIED] =>
          destruct (Z.eqb_spec c ERROR_ACCESS_DENIED); [try subst c |]
      end ].

Ltac open_run :=
  unfold win_opendir, malloc, FindFirstFileW, GetLastError, bind, ret, modify, gets;
  match goal with
  | |- context [?p ++ C "\*"] => fold (listing_pattern p)
  end;
  repeat open_step.

(** X15: when one of its two allocations fails, [win_opendir] returns null
    with [errno] set to [ENOMEM] and does nothing else: no conversion, no
    listing. *)
Theorem win_opendir_out_of_memory (dir_path : cstr) (w : World) :
  nt_malloc env (strlen dir_path + 3) = false \/
  nt_malloc env (sizeof_WIN_DIR env) = false ->
  win_opendir env dir_path w = (None, set_errno ENOMEM w).
Proof.
  intros [Hm | Hm];
    unfold win_opendir, malloc, bind, ret, modify.
  - rewrite Hm. reflexivity.
  - destruct (nt_malloc env (strlen dir_path + 3)); [| reflexivity].
    cbn [negb]. rewrite Hm. reflexivity.
Qed.

(** X16: a null result of [win_opendir] comes with [errno] set to [ENOMEM],
    or to [EACCES] after a listing that was denied; no find handle and no
    descriptor has been added. *)
Theorem win_opendir_null (dir_path : cstr) (w w' : World) :
  win_opendir env dir_path w = (None, w') ->
  (errno w' = ENOMEM \/
   (errno w' = EACCES /\ last_error w' = ERROR_ACCESS_DENIED))
  /\ find_tab w' = find_tab w /\ open_fds w' = open_fds w.
Proof.
  intros Hrun.
  assert (Hnull : fst (win_opendir env dir_path w) = None)
    by (rewrite Hrun; reflexivity).
  replace w' with (snd (win_opendir env dir_path w)) by (rewrite Hrun; reflexivity).
  clear Hrun. revert Hnull. open_run.
  all: intros Hnull; try discriminate Hnull.
  all: repeat split; auto.
Qed.

Lemma fresh_find_handle (tab : gmap Z (list FindData)) :
  (fresh_handle (dom tab) ∉ dom tab) /\ fresh_handle (dom tab) <> INVALID_HANDLE_VALUE.
Proof.
  split; [apply fresh_handle_fresh |].
  pose proof (fresh_handle_pos (dom tab)). unfold INVALID_HANDLE_VALUE. lia.
Qed.

(** X17: when the allocations succeed, attempt 0 converts the pattern and
    the listing yields records, [win_opendir] makes no second attempt and
    returns an iterator that has not been read: it holds the first record,
    its handle is new and stands for the rest of the records, and its entry
    is cleared. *)
Theorem win_opendir_first_attempt (dir_path : cstr) (w : World)
    (wpath : wstr) (first : FindData) (rest : list FindData) :
  nt_malloc env (strlen dir_path + 3) = true ->
  nt_malloc env (sizeof_WIN_DIR env) = true ->
  c2w_result env (listing_pattern dir_path) 0 = Some wpath ->
  nt_find env wpath = FindYields first rest ->
  exists (d : WIN_DIR) (w' : World),
    win_opendir env dir_path w = (Some d, w') /\
    state d = 0 /\ findFileData d = first /\
    dir d = mkDirent None None 0 /\
    (hFind d ∉ dom (find_tab w)) /\ hFind d <> INVALID_HANDLE_VALUE /\
    find_tab w' = <[hFind d := rest]> (find_tab w) /\
    new_calls w w' =
      [CallC2W (listing_pattern dir_path) 0; CallFindFirstFileW wpath (hFind d)].
Proof.
  intros Hm1 Hm2 Hconv Hfind.
  pose proof (fresh_find_handle (find_tab w)) as [Hfresh Hvalid].
  open_run.
  do 2 eexists. split; [reflexivity |]. cbn.
  repeat split; try assumption. read_calls. reflexivity.
Qed.

(** X18: when attempt 0 fails for a reason other than denied access and
    attempt 1 converts the pattern, the listing of attempt 1 decides: records
    give an unread iterator on them, denied access gives null with [errno]
    set to [EACCES]. *)
Theorem win_opendir_second_attempt (dir_path : cstr) (w : World) (wpath : wstr) :
  nt_malloc env (strlen dir_path + 3) = true ->
  nt_malloc env (sizeof_WIN_DIR env) = true ->
  attempt_fails_otherwise env (listing_pattern dir_path) 0 ->
  c2w_result env (listing_pattern dir_path) 1 = Some wpath ->
  (forall first rest,
     nt_find env wpath = FindYields first rest ->
     exists (d : WIN_DIR) (w' : World),
       win_opendir env dir_path w = (Some d, w') /\
       state d = 0 /\ findFileData d = first /\
       (hFind d ∉ dom (find_tab w)) /\
       find_tab w' = <[hFind d := rest]> (find_tab w) /\
       last (new_calls w w') = Some (CallFindFirstFileW wpath (hFind d)))
  /\ (nt_find env wpath = FindFails ERROR_ACCESS_DENIED ->
      exists w' : World,
        win_opendir env dir_path w = (None, w') /\ errno w' = EACCES).
Proof.
  intros Hm1 Hm2 Hfirst Hconv1.
  pose proof (fresh_find_handle (find_tab w)) as [Hfresh Hvalid].
  split.
  - intros first rest Hfind1.
    destruct Hfirst as [Hconv0 | (wpath0 & code0 & Hconv0 & Hfind0 & Hcode0)];
      open_run;
      (do 2 eexists; split; [reflexivity |]); cbn;
      repeat split; try assumption; read_calls; reflexivity.
  - intros Hfind1.
    destruct Hfirst as [Hconv0 | (wpath0 & code0 & Hconv0 & Hfind0 & Hcode0)];
      open_run; eexists; split; reflexivity.
Qed.

(** X19: an iterator [win_opendir] returns is unread ([state] 0) with a
    valid handle that is new in the table of find handles, or ended ([state]
    -1) with the invalid handle and the table as before; its entry is
    cleared, [errno] is the translation of the last native error, and no
    descriptor is opened. *)
Theorem win_opendir_iterator (dir_path : cstr) (d : WIN_DIR) (w w' : World) :
  win_opendir env dir_path w = (Some d, w') ->
  dir d = mkDirent None None 0
  /\ errno w' = convert_last_error_to_errno w'
  /\ open_fds w' = open_fds w
  /\ ((state d = 0 /\ hFind d <> INVALID_HANDLE_VALUE /\
       (hFind d ∉ dom (find_tab w)) /\
       exists rest, find_tab w' = <[hFind d := rest]> (find_tab w))
      \/ (state d = -1 /\ hFind d = INVALID_HANDLE_VALUE /\
          find_tab w' = find_tab w)).
Proof.
  intros Hrun.
  pose proof (fresh_find_handle (find_tab w)) as [Hfresh Hvalid].
  assert (Hd : fst (win_opendir env dir_path w) = Some d)
    by (rewrite Hrun; reflexivity).
  replace w' with (snd (win_opendir env dir_path w)) by (rewrite Hrun; reflexivity).
  clear Hrun. revert Hd. open_run.
  all: intros [= <-]; cbn.
  all: split; [reflexivity |]; split; [reflexivity |]; split; [reflexivity |].
  all: first [ right; repeat split; reflexivity
             | left; repeat split; try assumption; eexists; reflexivity ].
Qed.







(** What [FindNextFileW] leaves alone. *)
Lemma FindNextFileW_frame (h : Z) (w : World) :
  let w' := snd (FindNextFileW h w) in
  errno w' = errno w /\ open_fds w' = open_fds w /\
  (forall h', h' <> h -> find_tab w' !! h' = find_tab w !! h') /\
  exists ok, calls w' = calls w ++ [CallFindNextFileW h ok].
Proof.
  unfold FindNextFileW, bind, gets, modify, ret.
  destruct (find_tab w !! h) as [[| r rest] |]; cbn; repeat split; eauto.
  intros h' Hne. apply lookup_insert_ne. congruence.
Qed.

(** What the loop of [win_readdir] leaves alone: [errno], the descriptors,
    the handle of the iterator and the listings behind other handles; the
    calls it adds to the log are [FindNextFileW] on its own handle (the
    conversions of the names are not logged). *)
Lemma win_readdir_loop_frame (fuel : nat) (d d' : WIN_DIR) (w w' : World)
    (r : option win_dirent) :
  win_readdir_loop env fuel d w = Some (r, d', w') ->
  hFind d' = hFind d /\ errno w' = errno w /\ open_fds w' = open_fds w /\
  (forall h, h <> hFind d -> find_tab w' !! h = find_tab w !! h) /\
  exists l, calls w' = calls w ++ l /\
            Forall (fun c => exists ok, c = CallFindNextFileW (hFind d) ok) l.
Proof.
  revert d w. induction fuel as [| fuel IH]; intros d w; [discriminate |].
  cbn [win_readdir_loop].
  assert (Hnext : forall next w1,
    (if 0 <? state d then FindNextFileW (hFind d) w
     else (Some (findFileData d), w)) = (next, w1) ->
    errno w1 = errno w /\ open_fds w1 = open_fds w /\
    (forall h, h <> hFind d -> find_tab w1 !! h = find_tab w !! h) /\
    exists l, calls w1 = calls w ++ l /\
              Forall (fun c => exists ok, c = CallFindNextFileW (hFind d) ok) l).
  { intros next w1. destruct (0 <? state d).
    - intros Hcall. pose proof (FindNextFileW_frame (hFind d) w) as Hframe.
      rewrite Hcall in Hframe. cbn in Hframe.
      destruct Hframe as (He & Hf & Ht & ok & Hc).
      repeat split; try assumption. exists [CallFindNextFileW (hFind d) ok].
      split; [exact Hc |]. repeat constructor. eauto.
    - intros [= <- <-]. repeat split. exists []. rewrite app_nil_r.
      split; [reflexivity | constructor]. }
  destruct (if 0 <? state d then FindNextFileW (hFind d) w
            else (Some (findFileData d), w)) as [next w1].
  specialize (Hnext next w1 eq_refl) as (He1 & Hf1 & Ht1 & l1 & Hc1 & Hl1).
  destruct next as [record |].
  2: { intros [= <- <- <-]. repeat split; try assumption. eauto. }
  cbn [findFileData state set_findFileData set_state set_d_name set_dir].
  assert (Hrec : forall d1 w2,
    hFind d1 = hFind d ->
    errno w2 = errno w1 -> open_fds w2 = open_fds w1 ->
    find_tab w2 = find_tab w1 -> calls w2 = calls w1 ->
    win_readdir_loop env fuel d1 w2 = Some (r, d', w') ->
    hFind d' = hFind d /\ errno w' = errno w /\ open_fds w' = open_fds w /\
    (forall h, h <> hFind d -> find_tab w' !! h = find_tab w !! h) /\
    exists l, calls w' = calls w ++ l /\
              Forall (fun c => exists ok, c = CallFindNextFileW (hFind d) ok) l).
  { intros d1 w2 Hh He Hf Ht Hc Hloop.
    apply IH in Hloop as (Hh' & He' & Hf' & Ht' & l2 & Hc' & Hl2).
    rewrite Hh in *. repeat split; try congruence.
    - intros h Hne. rewrite Ht' by exact Hne. rewrite Ht. apply Ht1. exact Hne.
    - exists (l1 ++ l2). split.
      + rewrite Hc', Hc, Hc1, app_assoc. reflexivity.
      + apply Forall_app. split; assumption. }
  destruct (is_dot_name (cFileName record)).
  { apply Hrec; reflexivity. }
  pose proof (wchar_to_cstr_world env (cFileName record) (WIN_DEFAULT_ENCODING env)
                true w1) as (He2 & Hf2 & Ht2 & Hc2).
  destruct (wchar_to_cstr env (cFileName record) (WIN_DEFAULT_ENCODING env) true w1)
    as [[filename failed] w2].
  cbn [fst snd] in He2, Hf2, Ht2, Hc2.
  destruct filename as [name |]; [| apply Hrec; assumption || reflexivity].
  destruct failed as [[| p | p] |]; try (apply Hrec; assumption || reflexivity).
  intros [= <- <- <-]. cbn. repeat split; try congruence.
  - intros h Hne. rewrite Ht2. apply Ht1. exact Hne.
  - exists l1. split; [congruence | exact Hl1].
Qed.

Lemma win_readdir_frame (d d' : WIN_DIR) (w w' : World) (r : option win_dirent) :
  win_readdir env d w = (r, d', w') ->
  hFind d' = hFind d /\ errno w' = errno w /\ open_fds w' = open_fds w /\
  (forall h, h <> hFind d -> find_tab w' !! h = find_tab w !! h) /\
  exists l, calls w' = calls w ++ l /\
            Forall (fun c => exists ok, c = CallFindNextFileW (hFind d) ok) l.
Proof.
  intros Hrun.
  destruct (Z.eq_dec (state d) (-1)) as [Hended | Hrunning].
  - rewrite win_readdir_ended in Hrun by assumption.
    injection Hrun as <- <- <-. repeat split.
    exists []. rewrite app_nil_r. split; [reflexivity | constructor].
  - pose proof (win_readdir_eq env d w Hrunning) as Hloop. rewrite Hrun in Hloop.
    apply win_readdir_loop_frame in Hloop. exact Hloop.
Qed.

(** [FindNextFileW] takes at most one record from the front of the listing
    behind its handle. *)
Lemma FindNextFileW_consumes (h : Z) (w : World) :
  exists k : nat,
    find_tab (snd (FindNextFileW h w)) !! h = drop k <$> (find_tab w !! h).
Proof.
  unfold FindNextFileW, bind, gets, modify, ret.
  destruct (find_tab w !! h) as [[| r rest] |] eqn:Hh; cbn.
  - exists 0%nat. rewrite Hh. reflexivity.
  - exists 1%nat. rewrite lookup_insert_eq. reflexivity.
  - exists 0%nat. rewrite Hh. reflexivity.
Qed.

Lemma fmap_drop_drop (k1 k2 : nat) (listing : option (list FindData)) :
  drop k2 <$> (drop k1 <$> listing) = drop (k1 + k2) <$> listing.
Proof. destruct listing as [l |]; cbn; [rewrite drop_drop |]; reflexivity. Qed.

(** The loop of [win_readdir] only takes records from the front of the
    listing behind the handle of its iterator. *)
Lemma win_readdir_loop_consumes (fuel : nat) (d d' : WIN_DIR) (w w' : World)
    (r : option win_dirent) :
  win_readdir_loop env fuel d w = Some (r, d', w') ->
  exists k : nat,
    find_tab w' !! hFind d = drop k <$> (find_tab w !! hFind d).
Proof.
  revert d w. induction fuel as [| fuel IH]; intros d w; [discriminate |].
  cbn [win_readdir_loop].
  assert (Hnext : forall next w1,
    (if 0 <? state d then FindNextFileW (hFind d) w
     else (Some (findFileData d), w)) = (next, w1) ->
    exists k : nat, find_tab w1 !! hFind d = drop k <$> (find_tab w !! hFind d)).
  { intros next w1. destruct (0 <? state d).
    - intros Hcall. destruct (FindNextFileW_consumes (hFind d) w) as [k Hk].
      rewrite Hcall in Hk. exists k. exact Hk.
    - intros [= <- <-]. exists 0%nat.
      destruct (find_tab w !! hFind d); reflexivity. }
  destruct (if 0 <? state d then FindNextFileW (hFind d) w
            else (Some (findFileData d), w)) as [next w1].
  specialize (Hnext next w1 eq_refl) as [k1 Hk1].
  destruct next as [record |].
  2: { intros [= <- <- <-]. exists k1. exact Hk1. }
  cbn [findFileData state set_findFileData set_state set_d_name set_dir].
  assert (Hrec : forall d1 w2,
    hFind d1 = hFind d -> find_tab w2 = find_tab w1 ->
    win_readdir_loop env fuel d1 w2 = Some (r, d', w') ->
    exists k : nat, find_tab w' !! hFind d = drop k <$> (find_tab w !! hFind d)).
  { intros d1 w2 Hh Ht Hloop. apply IH in Hloop as [k2 Hk2].
    rewrite Hh, Ht, Hk1, fmap_drop_drop in Hk2. exists (k1 + k2)%nat. exact Hk2. }
  destruct (is_dot_name (cFileName record)).
  { apply Hrec; reflexivity. }
  pose proof (wchar_to_cstr_world env (cFileName record) (WIN_DEFAULT_ENCODING env)
                true w1) as (_ & _ & Ht2 & _).
  destruct (wchar_to_cstr env (cFileName record) (WIN_DEFAULT_ENCODING env) true w1)
    as [[filename failed] w2].
  cbn [fst snd] in Ht2.
  destruct filename as [name |]; [| apply Hrec; assumption || reflexivity].
  destruct failed as [[| p | p] |]; try (apply Hrec; assumption || reflexivity).
  intros [= <- <- <-]. exists k1. rewrite Ht2. exact Hk1.
Qed.

Lemma win_readdir_consumes (d d' : WIN_DIR) (w w' : World) (r : option win_dirent) :
  win_readdir env d w = (r, d', w') ->
  exists k : nat,
    find_tab w' !! hFind d = drop k <$> (find_tab w !! hFind d).
Proof.
  intros Hrun.
  destruct (Z.eq_dec (state d) (-1)) as [Hended | Hrunning].
  - rewrite win_readdir_ended in Hrun by assumption.
    injection Hrun as <- <- <-. exists 0%nat.
    destruct (find_tab w !! hFind d); reflexivity.
  - pose proof (win_readdir_eq env d w Hrunning) as Hloop. rewrite Hrun in Hloop.
    apply win_readdir_loop_consumes in Hloop. exact Hloop.
Qed.

(** X21: a call of [win_readdir] keeps the handle of its iterator and
    leaves [errno], the open descriptors and the listings behind every other
    find handle as they are; from the listing behind its own handle it only
    takes records off the front.  It opens and closes no find handle:
    iterators do not disturb one another. *)
Theorem win_readdir_isolated (d d' : WIN_DIR) (w w' : World) (r : option win_dirent) :
  win_readdir env d w = (r, d', w') ->
  hFind d' = hFind d /\ errno w' = errno w /\ open_fds w' = open_fds w /\
  (forall h, h <> hFind d -> find_tab w' !! h = find_tab w !! h) /\
  (exists k : nat, find_tab w' !! hFind d = drop k <$> (find_tab w !! hFind d)) /\
  dom (find_tab w') = dom (find_tab w).
Proof.
  intros Hrun.
  pose proof (win_readdir_consumes _ _ _ _ _ Hrun) as [k Hk].
  apply win_readdir_frame in Hrun as (Hh & He & Hf & Ht & _).
  repeat split; try assumption; [exists k; exact Hk |].
  apply set_eq. intros h. rewrite !elem_of_dom.
  destruct (decide (h = hFind d)) as [-> | Hne].
  - rewrite Hk. apply fmap_is_Some.
  - rewrite Ht by exact Hne. reflexivity.
Qed.

(** Any number of calls of [win_readdir] keep the handle of the iterator and
    the listings behind the other handles. *)
Lemma win_readdir_after_frame (n : nat) (d : WIN_DIR) (w : World) :
  hFind (snd (fst (win_readdir_after env n d w))) = hFind d /\
  delete (hFind d) (find_tab (snd (win_readdir_after env n d w))) =
    delete (hFind d) (find_tab w).
Proof.
  revert d w. induction n as [| n IH]; intros d w; cbn [win_readdir_after].
  - destruct (win_readdir env d w) as [[r d'] w'] eqn:Hrun.
    apply win_readdir_frame in Hrun as (Hh & _ & _ & Ht & _). cbn.
    split; [exact Hh |]. apply map_eq. intros h.
    destruct (decide (h = hFind d)) as [-> | Hne].
    + rewrite !lookup_delete_eq. reflexivity.
    + rewrite !lookup_delete_ne by congruence. apply Ht. exact Hne.
  - destruct (win_readdir env d w) as [[r d'] w'] eqn:Hrun.
    apply win_readdir_frame in Hrun as (Hh & _ & _ & Ht & _).
    destruct (IH d' w') as [Hh' Ht']. rewrite Hh in *.
    split; [exact Hh' |]. rewrite Ht'. apply map_eq. intros h.
    destruct (decide (h = hFind d)) as [-> | Hne].
    + rewrite !lookup_delete_eq. reflexivity.
    + rewrite !lookup_delete_ne by congruence. apply Ht. exact Hne.
Qed.

Lemma win_readdir_after_ended (n : nat) (d : WIN_DIR) (w : World) :
  state d = -1 -> win_readdir_after env n d w = (None, d, w).
Proof.
  intros Hended. revert w. induction n as [| n IH]; intros w;
    cbn [win_readdir_after]; rewrite win_readdir_ended by assumption;
    [reflexivity | apply IH].
Qed.

Lemma delete_fresh_insert (tab : gmap Z (list FindData)) (h : Z) (rest : list FindData) :
  h ∉ dom tab -> delete h (<[h := rest]> tab) = tab.
Proof.
  intros Hfresh. rewrite delete_insert_eq. apply delete_id.
  apply not_elem_of_dom. exact Hfresh.
Qed.

(** X22: an iterator [win_opendir] returned, read any number of times and
    then closed with [win_closedir], leaves the table of find handles as it
    was before the directory was opened: no handle leaks, and the handles of
    other iterators are kept. *)
Theorem win_opendir_closedir_no_leak (dir_path : cstr) (d : WIN_DIR) (w w1 : World)
    (n : nat) :
  win_opendir env dir_path w = (Some d, w1) ->
  find_tab (snd (win_closedir (snd (fst (win_readdir_after env n d w1)))
                   (snd (win_readdir_after env n d w1)))) = find_tab w.
Proof.
  intros Hrun.
  pose proof (fresh_find_handle (find_tab w)) as [Hfresh Hvalid].
  assert (Hd : fst (win_opendir env dir_path w) = Some d)
    by (rewrite Hrun; reflexivity).
  replace w1 with (snd (win_opendir env dir_path w)) by (rewrite Hrun; reflexivity).
  clear Hrun. revert Hd. open_run.
  all: intros [= <-].
  all: try (rewrite win_readdir_after_ended by reflexivity; reflexivity).
  all: match goal with
      | |- context [win_readdir_after env ?k ?d ?w1] =>
          destruct (win_readdir_after_frame k d w1) as [Hh Ht];
          destruct (win_readdir_after env k d w1) as [[r dn] wn]
      end;
      cbn [fst snd hFind find_tab set_d_name set_dir set_state store_find
           set_hFind set_findFileData set_errno_from_last_file_error set_errno
           log_call set_find_tab] in Hh, Ht |- *;
      unfold win_closedir, FindClose, bind, gets, modify, ret.
  all: rewrite Hh, fresh_handle_valid; cbn; rewrite ?Hh, Ht;
      apply delete_fresh_insert; exact Hfresh.
Qed.

(** X23: [win_closedir] makes no native call for an iterator whose handle is
    invalid and changes nothing; for a live iterator it closes the handle of
    the iterator, once, and leaves every other find handle, [errno] and the
    descriptors as they are. *)
Theorem win_closedir_effect (d : WIN_DIR) (w : World) :
  (hFind d = INVALID_HANDLE_VALUE -> win_closedir d w = (tt, w))
  /\ (hFind d <> INVALID_HANDLE_VALUE ->
      let w' := snd (win_closedir d w) in
      find_tab w' !! hFind d = None
      /\ (forall h, h <> hFind d -> find_tab w' !! h = find_tab w !! h)
      /\ new_calls w w' = [CallFindClose (hFind d)]
      /\ errno w' = errno w /\ open_fds w' = open_fds w
      /\ last_error w' = last_error w).
Proof.
  unfold win_closedir, FindClose, bind, gets, modify, ret. split.
  - intros ->. reflexivity.
  - intros Hvalid. apply Z.eqb_neq in Hvalid. rewrite Hvalid. cbn.
    split; [apply lookup_delete_eq |].
    split; [intros h Hne; apply lookup_delete_ne; congruence |].
    split; [| repeat split].
    apply new_calls_app. reflexivity.
Qed.

(** X24: [win_wopendir] lists the pattern [make_pathw] composes from the
    directory and [*] with a single [FindFirstFileW], without any conversion.
    Denied access gives null with [errno] set to [EACCES]; any other failure
    gives an ended iterator with the invalid handle and, unlike
    [win_opendir], leaves [errno] as it was; records give an unread iterator
    on a new handle.  The name of the entry is cleared in both iterators. *)
Theorem win_wopendir_outcomes (IS_PATH_SEPARATOR_W : wchar -> bool)
    (SYS_PATH_SEPARATOR : wchar) (allocated : WIN_DIR) (dir_path : option wstr)
    (w : World) :
  let wpath :=
    make_pathw IS_PATH_SEPARATOR_W SYS_PATH_SEPARATOR dir_path SIZE_T_MINUS_1 (L "*") in
  exists (r : option WIN_DIR) (w' : World),
    win_wopendir env IS_PATH_SEPARATOR_W SYS_PATH_SEPARATOR allocated dir_path w =
      (r, w')
    /\ open_fds w' = open_fds w
    /\ (exists h, new_calls w w' = [CallFindFirstFileW wpath h])
    /\ match nt_find env wpath with
       | FindFails code =>
           last_error w' = code /\ find_tab w' = find_tab w /\
           if code =? ERROR_ACCESS_DENIED
           then r = None /\ errno w' = EACCES
           else errno w' = errno w /\
                exists d, r = Some d /\ state d = -1 /\
                          hFind d = INVALID_HANDLE_VALUE /\
                          d_name (dir d) = None
       | FindYields first rest =>
           errno w' = errno w /\ last_error w' = last_error w /\
           exists d, r = Some d /\ state d = 0 /\ findFileData d = first /\
                     d_name (dir d) = None /\
                     (hFind d ∉ dom (find_tab w)) /\
                     hFind d <> INVALID_HANDLE_VALUE /\
                     find_tab w' = <[hFind d := rest]> (find_tab w)
       end.
Proof.
  intros wpath.
  pose proof (fresh_find_handle (find_tab w)) as [Hfresh Hvalid].
  unfold win_wopendir, FindFirstFileW, GetLastError, bind, ret, modify, gets.
  fold wpath.
  destruct (nt_find env wpath) as [code | first rest].
  - cbn [fst snd hFind store_find set_hFind set_findFileData last_error
         set_last_error log_call default].
    rewrite Z.eqb_refl. cbn [andb].
    destruct (Z.eqb_spec code ERROR_ACCESS_DENIED) as [-> | Hne];
      do 2 eexists; (split; [reflexivity |]); (split; [reflexivity |]);
      (split; [eexists; read_calls; reflexivity |]); cbn; repeat split.
    eexists. repeat split.
  - cbn [fst snd hFind store_find set_hFind set_findFileData last_error
         set_last_error log_call default find_tab set_find_tab].
    rewrite fresh_handle_valid. cbn [andb].
    do 2 eexists. split; [reflexivity |]. split; [reflexivity |].
    split; [eexists; read_calls; reflexivity |]. cbn.
    split; [reflexivity |]. split; [reflexivity |].
    eexists. repeat split; assumption.
Qed.

End DirectoryFacts.

(** ** Processor affinity *)

Lemma not_first_processor_bit0 (x : Z) :
  Z.testbit (Z.land x not_first_processor) 0 = false.
Proof. rewrite Z.land_spec. apply andb_false_r. Qed.

(** Equations between conjunctions of masks, bit by bit. *)
Ltac land_bits :=
  apply Z.bits_inj'; intros ? _; rewrite !Z.land_spec;
  repeat match goal with
         | |- context [Z.testbit ?x ?k] => destruct (Z.testbit x k)
         end;
  reflexivity.

(** X25: [set_benchmark_cpu_affinity] raises both priorities.  When the
    masks can be read and the system has a processor other than the first,
    the mask it sets is not empty, lies within the processors of the system,
    leaves out the first processor, and stays within the mask the process had
    if that allowed any such processor; otherwise the mask of the process is
    kept. *)
Theorem set_benchmark_cpu_affinity_mask (dwSysMask : Z) (query_succeeds : bool)
    (p : Process) :
  let p' := set_benchmark_cpu_affinity dwSysMask query_succeeds p in
  priority_class p' = HIGH_PRIORITY_CLASS
  /\ thread_priority p' = THREAD_PRIORITY_HIGHEST
  /\ (query_succeeds = true -> Z.land dwSysMask not_first_processor <> 0 ->
      affinity_mask p' <> 0
      /\ Z.testbit (affinity_mask p') 0 = false
      /\ Z.land (affinity_mask p') dwSysMask = affinity_mask p'
      /\ (Z.land dwSysMask (Z.land (affinity_mask p) not_first_processor) <> 0 ->
          Z.land (affinity_mask p') (affinity_mask p) = affinity_mask p'))
  /\ (query_succeeds = false \/ Z.land dwSysMask not_first_processor = 0 ->
      affinity_mask p' = affinity_mask p).
Proof.
  unfold set_benchmark_cpu_affinity. cbn [affinity_mask priority_class thread_priority].
  set (old := affinity_mask p).
  set (narrow := Z.land dwSysMask (Z.land old not_first_processor)).
  set (wide := Z.land dwSysMask not_first_processor).
  assert (Hnarrow : narrow = Z.land wide old) by (unfold narrow, wide; land_bits).
  assert (Hbit_n : Z.testbit narrow 0 = false)
    by (unfold narrow; rewrite Z.land_assoc; apply not_first_processor_bit0).
  assert (Hbit_w : Z.testbit wide 0 = false) by apply not_first_processor_bit0.
  assert (Hsys_n : Z.land narrow dwSysMask = narrow) by (unfold narrow; land_bits).
  assert (Hsys_w : Z.land wide dwSysMask = wide) by (unfold wide; land_bits).
  assert (Hold_n : Z.land narrow old = narrow) by (unfold narrow; land_bits).
  clearbody narrow wide old.
  destruct query_succeeds.
  2: { repeat split; try discriminate. }
  destruct (Z.eqb_spec narrow 0) as [Hn0 | Hn]; cbn [negb].
  - destruct (Z.eqb_spec wide 0) as [Hw0 | Hw]; cbn [negb affinity_mask];
      (split; [reflexivity |]); (split; [reflexivity |]); split.
    + intros _ ?. contradiction.
    + intros _. reflexivity.
    + intros _ _. repeat split; try assumption. intros ?. contradiction.
    + intros [? | ?]; [discriminate | contradiction].
  - destruct (Z.eqb_spec narrow 0) as [? | _]; [contradiction |].
    cbn [negb affinity_mask].
    split; [reflexivity |]. split; [reflexivity |]. split.
    + intros _ _. repeat split; try assumption. intros _. assumption.
    + intros [? | Hw0]; [discriminate |].
      rewrite Hnarrow, Hw0, Z.land_0_l in Hn. contradiction.
Qed.

(** ** Console *)

(** Case analysis on every test of a console function. *)
Ltac console_cases :=
  repeat match goal with
         | |- context [if ?b then _ else _] => destruct b eqn:?; cbn
         | |- context [match cursor ?c with _ => _ end] =>
             destruct (cursor c) as [[? ?] |] eqn:?; cbn
         end.

Lemma restore_console_output_cp (host : Host) (c : Console) :
  output_cp (restore_console host c) =
    if (0 <? saved_console_codepage c) && IsValidCodePage host (saved_console_codepage c)
    then saved_console_codepage c else output_cp c.
Proof.
  unfold restore_console, SetConsoleOutputCP, SetConsoleCursorInfo.
  destruct (0 <? saved_console_codepage c); cbn;
    [destruct (IsValidCodePage host (saved_console_codepage c)); cbn |];
    console_cases; reflexivity.
Qed.

Lemma restore_console_cursor (host : Host) (c : Console) :
  cursor (restore_console host c) =
    if stderr_handle_valid host && negb (saved_cursor_size c =? 0)
    then match cursor c with
         | Some _ => Some (saved_cursor_size c, 1)
         | None => None
         end
    else cursor c.
Proof.
  unfold restore_console, SetConsoleOutputCP, SetConsoleCursorInfo.
  destruct (0 <? saved_console_codepage c); cbn;
    [destruct (IsValidCodePage host (saved_console_codepage c)); cbn |];
    destruct (stderr_handle_valid host && negb (saved_cursor_size c =? 0)); cbn;
    try reflexivity;
    destruct (cursor c) as [[? ?] |] eqn:Hc; cbn; rewrite ?Hc; reflexivity.
Qed.

(** What [setup_console] saves: the code page of the console, unless it
    leaves that code page alone, and the size of a visible cursor it hides. *)
Lemma setup_console_saved (env : Platform) (host : Host) (c : Console) :
  let c' := setup_console env host c in
  ((saved_console_codepage c' = -1 /\ output_cp c' = output_cp c) \/
   saved_console_codepage c' = output_cp c)
  /\ ((cursor c' = cursor c /\ saved_cursor_size c' = saved_cursor_size c) \/
      exists dwSize bVisible,
        stderr_handle_valid host = true /\
        cursor c = Some (dwSize, bVisible) /\ cursor c' = Some (dwSize, 0) /\
        saved_cursor_size c' = if negb (bVisible =? 0) then dwSize else 0).
Proof.
  unfold setup_console, SetConsoleOutputCP, SetConsoleCursorInfo.
  set (cp := if flag_set env (OPT_UTF8 env) then CP_UTF8
             else if flag_set env (OPT_ANSI host) then GetACP host
                  else GetOEMCP host).
  clearbody cp.
  destruct ((0 <? cp) && IsValidCodePage host cp && (isatty host 1 || isatty host 2));
    cbn; [destruct (IsValidCodePage host cp); cbn |];
    (destruct (negb (Z.land (opt_flags env) (OPT_PERCENTS host) =? 0) && isatty host 2);
     cbn; [destruct (stderr_handle_valid host) eqn:Hstderr; cbn;
           [destruct (cursor c) as [[dwSize bVisible] |] eqn:Hcur; cbn;
            [rewrite ?Hcur; cbn |] |] |]);
    (split; [auto |]); eauto 7.
Qed.

(** X26: [restore_console] after [setup_console] gives the console back its
    output code page and its cursor, provided the console had a valid code
    page, its cursor, if visible, had a size and the flag value 1, and no
    cursor size was saved before. *)
Theorem setup_restore_console (env : Platform) (host : Host) (c : Console) :
  0 < output_cp c ->
  IsValidCodePage host (output_cp c) = true ->
  saved_cursor_size c = 0 ->
  (forall dwSize bVisible,
     cursor c = Some (dwSize, bVisible) ->
     bVisible = 0 \/ (bVisible = 1 /\ dwSize <> 0)) ->
  output_cp (restore_console host (setup_console env host c)) = output_cp c
  /\ cursor (restore_console host (setup_console env host c)) = cursor c.
Proof.
  intros Hcp Hvalid Hsaved Hcursor.
  pose proof (setup_console_saved env host c) as [Hcode Hcur].
  cbv zeta in Hcode, Hcur.
  rewrite restore_console_output_cp, restore_console_cursor.
  set (c' := setup_console env host c) in *. clearbody c'.
  split.
  - destruct Hcode as [[-> ->] | ->]; [reflexivity |].
    destruct (Z.ltb_spec 0 (output_cp c)) as [_ | ?]; [| lia].
    rewrite Hvalid. reflexivity.
  - destruct Hcur as [[-> ->] | (dwSize & bVisible & Hstderr & Hc & -> & ->)].
    + rewrite Hsaved. cbn. rewrite andb_false_r. reflexivity.
    + rewrite Hc, Hstderr.
      destruct (Hcursor dwSize bVisible Hc) as [-> | [-> Hsize]]; cbn.
      * reflexivity.
      * apply Z.eqb_neq in Hsize. rewrite Hsize. reflexivity.
Qed.

(** * The further theorems applied *)

Lemma pair_eta2 {A B : Type} (r : A * B) (a : A) :
  fst r = a -> r = (a, snd r).
Proof. destruct r as [x y]. simpl. intros ->. reflexivity. Defined.

Lemma triple_eta {A B D : Type} (r : A * B * D) :
  r = (fst (fst r), snd (fst r), snd r).
Proof. destruct r as [[x y] z]. reflexivity. Defined.

Lemma win_to_utf8_utf8_mode_witness :
  flag_set (toy 1) (OPT_UTF8 (toy 1)) = true /\
  win_to_utf8 (toy 1) 4 undecodable_path world0 = Some (Some undecodable_path, world0).
Proof.
  split; [reflexivity |].
  apply (win_to_utf8_utf8_mode (toy 1) 4 undecodable_path world0). reflexivity.
Defined.

Lemma win_to_utf8_legacy_mode_witness :
  win_to_utf8 (toy 0) 4 (C "abc") world0 = None /\
  exists w' : World,
    win_to_utf8 (toy 2) 4 (C "abc") world0 = Some (Some (C "abc"), w').
Proof.
  split.
  - destruct (win_to_utf8_legacy_mode (toy 0) 4 (C "abc") world0 eq_refl)
      as [Hassert _].
    apply Hassert. reflexivity.
  - destruct (win_to_utf8_legacy_mode (toy 2) 4 (C "abc") world0 eq_refl)
      as [_ Hrun].
    destruct Hrun as (r & w' & Hrun & Hr & _); [discriminate |].
    exists w'. rewrite Hrun, Hr. reflexivity.
Defined.

Lemma win_fopen_ex_streams_witness :
  match win_fopen_ex (toy 1) (C "f.txt") (C "rb") 1 world0 with
  | Some (fd, w') =>
      find_tab w' = find_tab world0 /\
      ((fd = 0 /\ open_fds w' = open_fds world0) \/
       (fd <> 0 /\ (fd ∉ open_fds world0) /\ open_fds w' = {[fd]} ∪ open_fds world0))
  | None => False
  end.
Proof.
  destruct (win_fopen_ex (toy 1) (C "f.txt") (C "rb") 1 world0) as [[fd w'] |] eqn:Hrun.
  - exact (win_fopen_ex_streams (toy 1) _ _ _ _ _ _ Hrun).
  - vm_compute in Hrun. discriminate Hrun.
Defined.

Lemma win_fopen_ex_calls_witness :
  match win_fopen_ex (toy 1) (C "g.txt") (C "rb") 0 world0 with
  | Some (fd, w') =>
      (length (stream_opens (new_calls world0 w')) <= 2)%nat /\
      forall wpath wmode shflag r,
        CallWfsopen wpath wmode shflag r ∈ new_calls world0 w' ->
        shflag = _SH_DENYNO
  | None => False
  end.
Proof.
  destruct (win_fopen_ex (toy 1) (C "g.txt") (C "rb") 0 world0) as [[fd w'] |] eqn:Hrun.
  - destruct (win_fopen_ex_calls (toy 1) _ _ _ _ _ _ Hrun) as (Hlen & Hopen & _).
    split; [exact Hlen |].
    intros wpath wmode shflag r Hin.
    destruct (Hopen wpath wmode shflag r Hin) as (_ & Hsh & _). exact Hsh.
  - vm_compute in Hrun. discriminate Hrun.
Defined.

Lemma win_fopen_ex_success_witness :
  match win_fopen_ex (toy 1) (C "f.txt") (C "rb") 1 world0 with
  | Some (fd, w') => fd <> 0
  | None => False
  end.
Proof.
  destruct (win_fopen_ex (toy 1) (C "f.txt") (C "rb") 1 world0) as [[fd w'] |] eqn:Hrun.
  - apply (win_fopen_ex_success (toy 1) _ _ _ _ _ _ Hrun).
    left. exists (L "f.txt"). split; reflexivity.
  - vm_compute in Hrun. discriminate Hrun.
Defined.

Lemma win_fopen_ex_failure_witness :
  match win_fopen_ex (toy 1) (C "g.txt") (C "rb") 1 world0 with
  | Some (fd, w') =>
      fd = 0 /\
      ((c2w_result (toy 1) (C "g.txt") 0 = None /\
        c2w_result (toy 1) (C "g.txt") 1 = None /\
        errno w' = errno world0 /\ stream_opens (new_calls world0 w') = [])
       \/ (exists wpath wmode shflag,
             last (stream_opens (new_calls world0 w')) =
               Some (CallWfsopen wpath wmode shflag 0) /\
             nt_fsopen (toy 1) wpath wmode shflag = Fails (errno w')))
  | None => False
  end.
Proof.
  assert (Hfd : fst <$> win_fopen_ex (toy 1) (C "g.txt") (C "rb") 1 world0 = Some 0)
    by (vm_compute; reflexivity).
  destruct (win_fopen_ex (toy 1) (C "g.txt") (C "rb") 1 world0) as [[fd w'] |] eqn:Hrun.
  - injection Hfd as ->. split; [reflexivity |].
    exact (win_fopen_ex_failure (toy 1) _ _ _ _ _ Hrun).
  - discriminate Hfd.
Defined.

Lemma make_pathw_with_dir_witness :
  0 < 4 <= wcslen (L "/a/bxyz") /\
  make_pathw is_slash 47 (Some (L "/a/bxyz")) 4 (L "//c") =
    take 4 (L "/a/bxyz")
    ++ (if bool_decide (last (take 4 (L "/a/bxyz")) = Some 47) then [] else [47])
    ++ skip_separators is_slash (L "//c").
Proof.
  assert (Hlen : 0 < 4 <= wcslen (L "/a/bxyz")) by (vm_compute; split; [reflexivity | discriminate]).
  split; [exact Hlen |].
  exact (make_pathw_with_dir is_slash 47 (L "/a/bxyz") 4 (L "//c") Hlen).
Defined.

Lemma make_pathw_fits_witness :
  wcslen (make_pathw is_slash 47 (Some (L "/a/b")) SIZE_T_MINUS_1 (L "/c")) + 1 <=
    wcslen (L "/a/b") + wcslen (skip_separators is_slash (L "/c")) + 2.
Proof.
  apply (make_pathw_fits is_slash 47 (Some (L "/a/b")) SIZE_T_MINUS_1 (L "/c")).
  vm_compute. split; discriminate.
Defined.

Lemma make_pathw_leading_separators_witness :
  forallb is_slash (L "///") = true /\
  make_pathw is_slash 47 (Some (L "/a/b")) SIZE_T_MINUS_1 (L "///" ++ L "c") =
    make_pathw is_slash 47 (Some (L "/a/b")) SIZE_T_MINUS_1 (L "c").
Proof.
  split; [reflexivity |].
  apply (make_pathw_leading_separators is_slash 47 (L "/a/b") (L "///") (L "c")
           SIZE_T_MINUS_1).
  reflexivity.
Defined.

Lemma win_opendir_out_of_memory_witness :
  nt_malloc toy_no_memory (strlen (C "d") + 3) = false /\
  win_opendir toy_no_memory (C "d") world0 = (None, set_errno ENOMEM world0).
Proof.
  split; [reflexivity |].
  apply (win_opendir_out_of_memory toy_no_memory (C "d") world0).
  left. reflexivity.
Defined.

Lemma win_opendir_null_witness :
  fst (win_opendir (toy 1) (C "locked") world0) = None /\
  errno (snd (win_opendir (toy 1) (C "locked") world0)) = EACCES /\
  find_tab (snd (win_opendir (toy 1) (C "locked") world0)) = find_tab world0.
Proof.
  assert (Hnull : fst (win_opendir (toy 1) (C "locked") world0) = None)
    by (vm_compute; reflexivity).
  split; [exact Hnull |].
  destruct (win_opendir_null (toy 1) (C "locked") world0 _ (pair_eta2 _ _ Hnull))
    as ([Hmem | [Hdenied _]] & Htab & _).
  - vm_compute in Hmem. discriminate Hmem.
  - split; assumption.
Defined.

Lemma win_opendir_first_attempt_witness :
  exists (d : WIN_DIR) (w' : World),
    win_opendir (toy 1) (C "d") world0 = (Some d, w') /\
    state d = 0 /\ findFileData d = mkFindData (L ".") 16.
Proof.
  destruct (win_opendir_first_attempt (toy 1) (C "d") world0 (L "d\*")
              (mkFindData (L ".") 16)
              [mkFindData (L "..") 16; mkFindData (L "a.txt") 32]
              eq_refl eq_refl eq_refl eq_refl)
    as (d & w' & Hrun & Hstate & Hdata & _).
  exists d, w'. repeat split; assumption.
Defined.

Lemma latin_utf8_fails (byte : Z) :
  byte = 233 \/ byte = 234 ->
  attempt_fails_otherwise latin_platform (listing_pattern [byte]) 0.
Proof. intros [-> | ->]; left; reflexivity. Defined.

Lemma win_opendir_second_attempt_witness :
  (exists (d : WIN_DIR) (w' : World),
     win_opendir latin_platform [233] world0 = (Some d, w') /\
     state d = 0 /\ findFileData d = mkFindData (L "b.txt") 32)
  /\ (exists w' : World,
        win_opendir latin_platform [234] world0 = (None, w') /\ errno w' = EACCES).
Proof.
  split.
  - destruct (win_opendir_second_attempt latin_platform [233] world0 [233; 92; 42]
                eq_refl eq_refl (latin_utf8_fails 233 (or_introl eq_refl)) eq_refl)
      as [Hrecords _].
    destruct (Hrecords (mkFindData (L "b.txt") 32) [] eq_refl)
      as (d & w' & Hrun & Hstate & Hdata & _).
    exists d, w'. repeat split; assumption.
  - destruct (win_opendir_second_attempt latin_platform [234] world0 [234; 92; 42]
                eq_refl eq_refl (latin_utf8_fails 234 (or_intror eq_refl)) eq_refl)
      as [_ Hdenied].
    apply Hdenied. reflexivity.
Defined.

Lemma win_opendir_d_opens :
  fst (win_opendir (toy 1) (C "d") world0) = Some fresh_iterator.
Proof. vm_compute. reflexivity. Defined.

Lemma win_opendir_iterator_witness :
  fst (win_opendir (toy 1) (C "d") world0) = Some fresh_iterator /\
  dir fresh_iterator = mkDirent None None 0 /\
  errno (snd (win_opendir (toy 1) (C "d") world0)) =
    convert_last_error_to_errno (snd (win_opendir (toy 1) (C "d") world0)).
Proof.
  split; [exact win_opendir_d_opens |].
  destruct (win_opendir_iterator (toy 1) (C "d") fresh_iterator world0 _
              (pair_eta2 _ _ win_opendir_d_opens)) as (Hdir & Herrno & _).
  split; assumption.
Defined.


Lemma win_readdir_isolated_witness :
  hFind (snd (fst (win_readdir (toy 1) fresh_iterator fresh_iterator_world))) =
    hFind fresh_iterator /\
  errno (snd (win_readdir (toy 1) fresh_iterator fresh_iterator_world)) =
    errno fresh_iterator_world.
Proof.
  destruct (win_readdir_isolated (toy 1) fresh_iterator _ fresh_iterator_world _ _
              (triple_eta (win_readdir (toy 1) fresh_iterator fresh_iterator_world)))
    as (Hh & He & _).
  split; assumption.
Defined.

Lemma win_opendir_closedir_no_leak_witness :
  fst (win_opendir (toy 1) (C "d") world0) = Some fresh_iterator /\
  find_tab
    (snd (win_closedir
            (snd (fst (win_readdir_after (toy 1) 1 fresh_iterator
                         (snd (win_opendir (toy 1) (C "d") world0)))))
            (snd (win_readdir_after (toy 1) 1 fresh_iterator
                    (snd (win_opendir (toy 1) (C "d") world0)))))) =
    find_tab world0.
Proof.
  split; [exact win_opendir_d_opens |].
  exact (win_opendir_closedir_no_leak (toy 1) (C "d") fresh_iterator world0 _ 1
           (pair_eta2 _ _ win_opendir_d_opens)).
Defined.

Lemma win_closedir_effect_witness :
  win_closedir ended_iterator world0 = (tt, world0) /\
  find_tab (snd (win_closedir fresh_iterator fresh_iterator_world)) !! 1 = None /\
  new_calls fresh_iterator_world
    (snd (win_closedir fresh_iterator fresh_iterator_world)) = [CallFindClose 1].
Proof.
  split.
  - destruct (win_closedir_effect ended_iterator world0) as [Hended _].
    apply Hended. reflexivity.
  - destruct (win_closedir_effect fresh_iterator fresh_iterator_world) as [_ Hlive].
    destruct Hlive as (Hgone & _ & Hcalls & _); [discriminate |].
    split; assumption.
Defined.

Lemma set_benchmark_cpu_affinity_mask_witness :
  affinity_mask (set_benchmark_cpu_affinity 15 true (mkProcess 32 0 3)) <> 0 /\
  Z.testbit (affinity_mask (set_benchmark_cpu_affinity 15 true (mkProcess 32 0 3))) 0 =
    false /\
  affinity_mask (set_benchmark_cpu_affinity 1 true (mkProcess 32 0 1)) = 1.
Proof.
  destruct (set_benchmark_cpu_affinity_mask 15 true (mkProcess 32 0 3))
    as (_ & _ & Hset & _).
  destruct Hset as (Hnonzero & Hbit & _); [reflexivity | discriminate |].
  destruct (set_benchmark_cpu_affinity_mask 1 true (mkProcess 32 0 1))
    as (_ & _ & _ & Hkept).
  split; [exact Hnonzero |]. split; [exact Hbit |].
  apply Hkept. right. reflexivity.
Defined.

Lemma dos_console_cursor (dwSize bVisible : Z) :
  cursor dos_console = Some (dwSize, bVisible) ->
  bVisible = 0 \/ (bVisible = 1 /\ dwSize <> 0).
Proof. intros [= <- <-]. right. split; [reflexivity | discriminate]. Defined.

Lemma setup_restore_console_witness :
  output_cp (setup_console (toy 9) small_host dos_console) = CP_UTF8 /\
  cursor (setup_console (toy 9) small_host dos_console) = Some (25, 0) /\
  output_cp (restore_console small_host (setup_console (toy 9) small_host dos_console)) =
    output_cp dos_console /\
  cursor (restore_console small_host (setup_console (toy 9) small_host dos_console)) =
    cursor dos_console.
Proof.
  split; [reflexivity |]. split; [reflexivity |].
  apply (setup_restore_console (toy 9) small_host dos_console);
    [reflexivity | reflexivity | reflexivity | exact dos_console_cursor].
Defined.
